(** * Verification of the distributed DQN worker

    Shallow embedding of [rl_algorithms/dqn/worker.py] (class [DQNWorker]) and
    of [rl_algorithms/common/distributed/abstract/worker.py] (class [Worker]).

    Conventions of the embedding.
    - Python floats ([epsilon], rewards, losses, tensor elements) are exact
      rationals [Q]: rounding, infinities and NaN are not represented.
    - Python ints are [Z]; [len] is a [nat] injected into [Z] where the source
      compares it with a configured int.
    - An [np.ndarray] / tensor of floats is its flat list of elements.
    - The environment, the network's forward pass, the loss function, the
      random number generators and [preprocess_nstep] are collaborators that
      the two source files only call; they are the fields of [Collab].
    - Mutable objects are threaded explicitly: the worker record carries the
      environment, the two global generators and the tensor store. *)

From stdpp Require Import base list gmap strings.
From Stdlib Require Import QArith Qpower Lqa ZArith Lia.

Local Open Scope nat_scope.

(** ** Data *)

Abbreviation NdArray := (list Q) (only parsing).
Abbreviation Tensor := (list Q) (only parsing).
Abbreviation Obs := (list Q) (only parsing).
Abbreviation Action := Z (only parsing).

(** [hyper_params]: the entries the two files read. *)
Record HyperParams := mkHyperParams {
  n_step : Z;
  hp_max_epsilon : Q;
  hp_min_epsilon : Q;
  epsilon_decay : Q;
  gamma : Q;
  per_eps : Q;
  local_buffer_max_size : Z
}.

(** The tuple [(state, action, reward, next_state, int(done))]. *)
Record Transition := mkTransition {
  t_state : Obs;
  t_action : Action;
  t_reward : Q;
  t_next_state : Obs;
  t_done : Z
}.

(** Entries of the heterogeneous Python tuples and lists. *)
Inductive Value :=
| VArr (a : NdArray)
| VInt (z : Z)
| VFloat (q : Q).

Definition tuple_of (t : Transition) : list Value :=
  [VArr (t_state t); VInt (t_action t); VFloat (t_reward t);
   VArr (t_next_state t); VInt (t_done t)].

(** ** Collaborators

    Everything the source calls but does not define. *)
Record Collab := mkCollab {
  EnvState : Type;
  env_seed : EnvState -> Z -> EnvState;
  env_reset : EnvState -> Obs * EnvState;
  env_step : EnvState -> Action -> (Obs * Q * bool) * EnvState;
  env_render : EnvState -> EnvState;
  (* [env.action_space.sample()]; the sampler's state lives in the env *)
  space_sample : EnvState -> Action * EnvState;
  (* numpy's global generator: [np.random.random()] *)
  NpRng : Type;
  np_random : NpRng -> Q * NpRng;
  (* Python's global generator: [random.seed], [random.randint] *)
  PyRng : Type;
  py_seed : Z -> PyRng;
  py_randint : Z -> Z -> PyRng -> Z * PyRng;
  (* [self.dqn(state).argmax()] for the given parameter contents *)
  dqn_argmax : list Tensor -> Tensor -> Action;
  (* float64 -> float32 conversion done by [torch.FloatTensor] *)
  float32 : Q -> Q;
  (* element-wise loss of [loss_fn(dqn, dqn, memory_tensors, gamma, head_cfg)] *)
  loss_fn : list Tensor -> list (list Value) -> Q -> list Q;
  (* [self.preprocess_nstep(nstep_queue)], not defined in the two files *)
  preprocess_nstep : HyperParams -> list Transition -> Transition
}.

(** ** Python helpers *)

Definition Qltb (x y : Q) : bool := negb (Qle_bool y x).

(** [max(a, b)]: the first argument unless the second is strictly larger. *)
Definition py_max (a b : Q) : Q := if Qltb a b then b else a.

(** [collections.deque.append] with [maxlen]: append on the right, then drop
    from the left when the bound is exceeded. *)
Definition deque_append {A} (maxlen : nat) (q : list A) (x : A) : list A :=
  let q' := q ++ [x] in
  if Nat.ltb maxlen (length q') then tail q' else q'.

(** ** The tensor store and the network *)

Abbreviation Loc := positive (only parsing).
Abbreviation Heap := (gmap positive Tensor) (only parsing).

(** The network object: the identities of its parameter tensors, in the order
    [network.parameters()] enumerates them. *)
Abbreviation Network := (list positive) (only parsing).

Definition read_tensor (h : Heap) (p : Loc) : Tensor := default [] (h !! p).
Definition read_params (h : Heap) (net : Network) : list Tensor :=
  read_tensor h <$> net.

Section Worker.
Context {C : Collab}.

Definition FloatTensor (a : NdArray) : Tensor := float32 C <$> a.

(** [self] together with the interpreter-global generators it draws from. *)
Record Worker := mkWorker {
  rank : Z;
  worker_render : bool;
  hyper_params : HyperParams;
  use_n_step : bool;
  max_epsilon : Q;
  min_epsilon : Q;
  epsilon : Q;
  env : EnvState C;
  dqn : Network;
  heap : Heap;
  np_rng : NpRng C;
  py_rng : PyRng C
}.

Definition set_epsilon (w : Worker) (e : Q) : Worker :=
  mkWorker (rank w) (worker_render w) (hyper_params w) (use_n_step w)
    (max_epsilon w) (min_epsilon w) e (env w) (dqn w) (heap w)
    (np_rng w) (py_rng w).
Definition set_env (w : Worker) (e : EnvState C) : Worker :=
  mkWorker (rank w) (worker_render w) (hyper_params w) (use_n_step w)
    (max_epsilon w) (min_epsilon w) (epsilon w) e (dqn w) (heap w)
    (np_rng w) (py_rng w).
Definition set_np_rng (w : Worker) (g : NpRng C) : Worker :=
  mkWorker (rank w) (worker_render w) (hyper_params w) (use_n_step w)
    (max_epsilon w) (min_epsilon w) (epsilon w) (env w) (dqn w) (heap w)
    g (py_rng w).
Definition set_heap (w : Worker) (h : Heap) : Worker :=
  mkWorker (rank w) (worker_render w) (hyper_params w) (use_n_step w)
    (max_epsilon w) (min_epsilon w) (epsilon w) (env w) (dqn w) h
    (np_rng w) (py_rng w).

(** The interpreter state a constructor call starts from. *)
Record Process := mkProcess {
  proc_np_rng : NpRng C;
  proc_py_rng : PyRng C
}.

(** [Worker._init_env], after the environment has been made:
    [random.seed(self.rank)], one [random.randint(0, 999)] draw, and
    [self.env.seed] with that draw.  numpy's generator is not touched. *)
Definition _init_env (rk : Z) (made_env : EnvState C) : EnvState C * PyRng C :=
  let g := py_seed C rk in
  let '(env_seed_value, g') := py_randint C 0 999 g in
  (env_seed C made_env env_seed_value, g').

(** [DQNWorker.__init__]: [made_env] is the result of [gym.make] or
    [atari_env_generator], [state_dict] the parameter contents loaded by
    [_init_networks], and [hp] the constructor's [hyper_params] argument,
    which the methods read as [self.hyper_params]. *)
Definition init_worker (rk : Z) (render : bool) (hp : HyperParams)
    (made_env : EnvState C) (net : Network) (state_dict : Heap)
    (proc : Process) : Worker :=
  let '(e, g) := _init_env rk made_env in
  mkWorker rk render hp (Z.ltb 1 (n_step hp))
    (hp_max_epsilon hp) (hp_min_epsilon hp) (hp_max_epsilon hp)
    e net state_dict (proc_np_rng proc) g.

(** The decrement rule at the end of [select_action]. *)
Definition decay_epsilon (w : Worker) : Q :=
  py_max
    (epsilon w - (max_epsilon w - min_epsilon w) * epsilon_decay (hyper_params w))
    (min_epsilon w).

Definition explores (w : Worker) (draw : Q) : bool := Qltb draw (epsilon w).

Definition select_action (w : Worker) (state : Obs) : Action * Worker :=
  let '(draw, g) := np_random C (np_rng w) in
  let w1 := set_np_rng w g in
  let '(selected_action, w2) :=
    if explores w draw then
      let '(a, e) := space_sample C (env w1) in (a, set_env w1 e)
    else
      (dqn_argmax C (read_params (heap w1) (dqn w1)) (FloatTensor state), w1) in
  (selected_action, set_epsilon w2 (decay_epsilon w2)).

(** [DQNWorker.step] *)
Definition step (w : Worker) (action : Action) : (Obs * Q * bool) * Worker :=
  let '(r, e) := env_step C (env w) action in (r, set_env w e).

(** ** The local buffer: a dict of lists, in insertion order *)

Definition LocalMemory := list (string * list Value).

Definition empty_memory : LocalMemory :=
  [("states"%string, []); ("actions"%string, []); ("rewards"%string, []);
   ("next_states"%string, []); ("dones"%string, [])].

Definition memory_keys (m : LocalMemory) : list string := fst <$> m.

(** [m[k]] *)
Fixpoint dict_get (m : LocalMemory) (k : string) : option (list Value) :=
  match m with
  | [] => None
  | (k', l) :: m' => if String.eqb k k' then Some l else dict_get m' k
  end.

(** [m[k].append(v)]; the keys used come from the dict's own key view, so
    the lookup cannot miss. *)
Fixpoint dict_append (m : LocalMemory) (k : string) (v : Value) : LocalMemory :=
  match m with
  | [] => []
  | (k', l) :: m' =>
      if String.eqb k k' then (k', l ++ [v]) :: m'
      else (k', l) :: dict_append m' k v
  end.

(** [for entry, keys in zip(entries, local_memory_keys):
       local_memory[keys].append(entry)] *)
Definition append_entries (m : LocalMemory) (entries : list Value) : LocalMemory :=
  foldl (fun acc ek => dict_append acc ek.2 ek.1) m (zip entries (memory_keys m)).

(** [len(local_memory[k])] *)
Definition field_len (m : LocalMemory) (k : string) : nat :=
  length (default [] (dict_get m k)).

(** Lines 116-125 of [collect_data]: what one transition does to the buffer
    and to the n-step window. *)
Definition record_transition (w : Worker) (m : LocalMemory)
    (nstep_queue : list Transition) (transition : Transition)
    : LocalMemory * list Transition :=
  if use_n_step w then
    let q := deque_append (Z.to_nat (n_step (hyper_params w))) nstep_queue transition in
    if Z.eqb (n_step (hyper_params w)) (Z.of_nat (length q)) then
      (append_entries m (tuple_of (preprocess_nstep C (hyper_params w) q)), q)
    else (m, q)
  else (append_entries m (tuple_of transition), nstep_queue).

(** ** [collect_data] as a machine

    One machine step is one evaluation of the outer loop head (with the
    [env.reset()] that follows it) or one pass through the body of
    [while not done].  [score] and [num_steps] are carried as the source
    does; the [print] that reads them at the end of an episode has no effect
    on the worker or the buffer. *)
Inductive Phase :=
| LoopHead
| InEpisode (state : Obs) (score : Q) (num_steps : Z)
| Returned.

Record Config := mkConfig {
  c_worker : Worker;
  c_memory : LocalMemory;
  c_queue : list Transition;
  c_phase : Phase
}.

Definition init_config (w : Worker) : Config :=
  mkConfig w empty_memory [] LoopHead.

Definition loop_head (w : Worker) (m : LocalMemory) (q : list Transition) : Config :=
  if Z.ltb (Z.of_nat (field_len m "states")) (local_buffer_max_size (hyper_params w)) then
    let '(state, e) := env_reset C (env w) in
    mkConfig (set_env w e) m q (InEpisode state 0%Q 0%Z)
  else mkConfig w m q Returned.

Definition loop_body (w : Worker) (m : LocalMemory) (q : list Transition)
    (state : Obs) (score : Q) (num_steps : Z) : Config :=
  let w0 := if worker_render w then set_env w (env_render C (env w)) else w in
  let num_steps := (num_steps + 1)%Z in
  let '(action, w1) := select_action w0 state in
  let '(next_state, reward, done, w2) := step w1 action in
  let transition := mkTransition state action reward next_state (Z.b2z done) in
  let '(m', q') := record_transition w2 m q transition in
  mkConfig w2 m' q'
    (if done then LoopHead else InEpisode next_state (score + reward)%Q num_steps).

Definition machine_step (c : Config) : Config :=
  match c_phase c with
  | LoopHead => loop_head (c_worker c) (c_memory c) (c_queue c)
  | InEpisode state score num_steps =>
      loop_body (c_worker c) (c_memory c) (c_queue c) state score num_steps
  | Returned => c
  end.

(** The configuration after [k] machine steps. *)
Definition after (k : nat) (c : Config) : Config := Nat.iter k machine_step c.

(** [np.array(local_memory[key])] keeps the entries and their order. *)
Definition to_arrays (m : LocalMemory) : LocalMemory := m.

Fixpoint run (fuel : nat) (c : Config) : option (LocalMemory * Worker) :=
  match c_phase c with
  | Returned => Some (to_arrays (c_memory c), c_worker c)
  | _ => match fuel with
         | O => None
         | S fuel' => run fuel' (machine_step c)
         end
  end.

Definition collect_data (fuel : nat) (w : Worker) : option (LocalMemory * Worker) :=
  run fuel (init_config w).

(** The value of [epsilon] after each of a series of [select_action] calls
    on the given states, nothing else touching the worker in between. *)
Fixpoint epsilon_trace (w : Worker) (states : list Obs) : list Q :=
  match states with
  | [] => []
  | s :: rest =>
      let w' := (select_action w s).2 in epsilon w' :: epsilon_trace w' rest
  end.

(** Number of transitions taken during the first [k] machine steps. *)
Definition takes_transition (c : Config) : nat :=
  match c_phase c with InEpisode _ _ _ => 1 | _ => 0 end.

Fixpoint transitions (k : nat) (c : Config) : nat :=
  match k with
  | O => O
  | S k' => transitions k' c + takes_transition (after k' c)
  end.

(** ** [compute_priorities] *)

Definition float_field (l : list Value) : list Value :=
  (fun v => match v with
            | VArr a => VArr (FloatTensor a)
            | VInt z => VFloat (float32 C (inject_Z z))
            | VFloat q => VFloat (float32 C q)
            end) <$> l.

Definition element_wise_loss (w : Worker) (memory : LocalMemory) : option (list Q) :=
  states ← dict_get memory "states";
  actions ← dict_get memory "actions";
  rewards ← dict_get memory "rewards";
  next_states ← dict_get memory "next_states";
  dones ← dict_get memory "dones";
  Some (loss_fn C (read_params (heap w) (dqn w))
          [float_field states; actions; float_field rewards;
           float_field next_states; float_field dones]
          (gamma (hyper_params w))).

Definition compute_priorities (w : Worker) (memory : LocalMemory) : option (list Q) :=
  match element_wise_loss w memory with
  | Some loss_for_prior =>
      Some ((fun l => l + per_eps (hyper_params w))%Q <$> loss_for_prior)
  | None => None
  end.

(** ** [synchronize] *)

(** [param.data.copy_(src)]: the cell [param] keeps its identity and takes the
    content of [src]; a source with another number of elements is rejected
    (broadcasting is not represented). *)
Definition copy_ (h : Heap) (param : Loc) (src : Tensor) : option Heap :=
  match h !! param with
  | Some old => if Nat.eqb (length old) (length src)
                then Some (<[param := src]> h) else None
  | None => None
  end.

Fixpoint sync_loop (h : Heap) (pairs : list (Loc * NdArray)) : option Heap :=
  match pairs with
  | [] => Some h
  | (param, new_param) :: rest =>
      h' ← copy_ h param (FloatTensor new_param); sync_loop h' rest
  end.

Definition _synchronize (h : Heap) (network : Network) (new_params : list NdArray)
    : option Heap :=
  sync_loop h (zip network new_params).

Definition synchronize (w : Worker) (new_params : list NdArray) : option Worker :=
  h ← _synchronize (heap w) (dqn w) new_params; Some (set_heap w h).

End Worker.

Arguments Worker : clear implicits.
Arguments FloatTensor : clear implicits.
Arguments sync_loop : clear implicits.
Arguments _synchronize : clear implicits.
Arguments Process : clear implicits.
Arguments Config : clear implicits.

(** ** The n-step fold *)

(** [sum over i in [0, N) of g^i * r_i] for [rewards = [r_0; ...; r_(N-1)]]. *)
Definition discounted_sum (g : Q) (rewards : list Q) : Q :=
  foldr Qplus 0%Q (imap (fun i r => g ^ Z.of_nat i * r)%Q rewards).

(** [d_0 or ... or d_(N-1)] on the int flags. *)
Definition any_done (window : list Transition) : bool :=
  existsb (fun t => negb (Z.eqb (t_done t) 0)) window.

(** Modelled from the spec: [preprocess_nstep], the fold of the n-step window
    that [collect_data] calls and neither source file defines.  The spec
    fixes three fields of the folded transition: the reward is the discounted
    sum of the window's rewards, [next_state] is the last member's and [done]
    is the disjunction of the members' flags.  It does not say which state and
    action the folded transition carries; the oldest member's are used. *)
Definition nstep_fold (hp : HyperParams) (window : list Transition) : Transition :=
  mkTransition
    (from_option t_state [] (head window))
    (from_option t_action 0%Z (head window))
    (discounted_sum (gamma hp) (t_reward <$> window))
    (from_option t_next_state [] (last window))
    (Z.b2z (any_done window)).

(** The collaborators [C] with [preprocess_nstep] as the spec describes it. *)
Definition with_nstep_fold (C : Collab) : Collab :=
  mkCollab (EnvState C) (env_seed C) (env_reset C) (env_step C) (env_render C)
    (space_sample C) (NpRng C) (np_random C) (PyRng C) (py_seed C)
    (py_randint C) (dqn_argmax C) (float32 C) (loss_fn C) nstep_fold.

(** ** A small concrete instance

    Episodes last three steps; the observation is the step count, the reward
    is the action taken.  The sampler always proposes action 1 and the network
    always answers 0.  numpy's generator is the list of its pending draws. *)
Module Toy.

Definition toy_step (pos : nat) (a : Action) : (Obs * Q * bool) * nat :=
  (([inject_Z (Z.of_nat (S pos))], inject_Z a, Nat.leb 3 (S pos)), S pos).

Definition toy_random (g : list Q) : Q * list Q := (hd 0%Q g, tl g).

Definition toy_randint (lo hi : Z) (g : Z) : Z * Z :=
  ((lo + g mod (hi - lo + 1))%Z, (g + 1)%Z).

Definition toy_loss (params : list Tensor) (batch : list (list Value)) (g : Q)
    : list Q :=
  map (fun _ => 0%Q) (hd [] batch).

Definition collab : Collab :=
  mkCollab nat (fun e _ => e) (fun _ => ([0%Q], O)) toy_step (fun e => e)
    (fun e => (1%Z, e)) (list Q) toy_random Z (fun z => z) toy_randint
    (fun _ _ => 0%Z) (fun x => x) toy_loss nstep_fold.

(** The hyper-parameters of the spec's scenarios, for a window of [n]. *)
Definition hp (n : Z) (size : Z) : HyperParams :=
  mkHyperParams n 1%Q (1 # 100)%Q (1 # 10000)%Q (1 # 2)%Q (1 # 1000000)%Q size.

Definition proc (draws : list Q) : Process collab := mkProcess (C:=collab) draws 0%Z.

Definition worker (n size : Z) (draws : list Q) : Worker collab :=
  init_worker (C:=collab) 7 false (hp n size) O [1%positive; 2%positive]
    (<[1%positive := [0%Q; 0%Q]]> (<[2%positive := [0%Q]]> ∅)) (proc draws).

(** Steps left in the running episode. *)
Definition remaining (pos : nat) : nat := 3 - pos.

(** A configuration with a negative decay rate. *)
Definition rising_hp : HyperParams :=
  mkHyperParams 1 1%Q (1 # 100)%Q (- (1 # 10))%Q (1 # 2)%Q (1 # 1000000)%Q 100.

Definition rising_worker : Worker collab :=
  init_worker (C:=collab) 7 false rising_hp O [] ∅ (proc []).

End Toy.

(** ** Predicates used in the statements *)

(** The buffer with the given five field sequences. *)
Definition memory_of (l1 l2 l3 l4 l5 : list Value) : LocalMemory :=
  [("states"%string, l1); ("actions"%string, l2); ("rewards"%string, l3);
   ("next_states"%string, l4); ("dones"%string, l5)].

(** A local buffer all of whose five field sequences have length [n]. *)
Definition buffer_of_len (m : LocalMemory) (n : nat) : Prop :=
  memory_keys m = memory_keys empty_memory
  /\ Forall (fun kv => length kv.2 = n) m.

(** The buffer [m] extended by the five fields of [t], one per sequence. *)
Definition extended_by (m : LocalMemory) (t : Transition) (m' : LocalMemory) : Prop :=
  exists l1 l2 l3 l4 l5,
    m = memory_of l1 l2 l3 l4 l5
    /\ m' = memory_of (l1 ++ [VArr (t_state t)]) (l2 ++ [VInt (t_action t)])
                      (l3 ++ [VFloat (t_reward t)])
                      (l4 ++ [VArr (t_next_state t)]) (l5 ++ [VInt (t_done t)]).

(** Whether [record_transition] appends to the buffer, and what it appends. *)
Definition accepts {C} (w : Worker C) (q : list Transition) (t : Transition) : bool :=
  if use_n_step w then
    Z.eqb (n_step (hyper_params w))
      (Z.of_nat (length (deque_append (Z.to_nat (n_step (hyper_params w))) q t)))
  else true.

Definition appended {C} (w : Worker C) (q : list Transition) (t : Transition)
    : Transition :=
  if use_n_step w then
    preprocess_nstep C (hyper_params w)
      (deque_append (Z.to_nat (n_step (hyper_params w))) q t)
  else t.

(** The environment a pass through the loop body steps: rendered when
    configured. *)
Definition shown_env {C} (w : Worker C) : EnvState C :=
  if worker_render w then env_render C (env w) else env w.

(** An environment whose episodes end: [left e] bounds the steps the running
    episode can still take, a reset leaves at most [K], every step that does
    not end the episode uses one up, and sampling or rendering adds none. *)
Definition episodic (C : Collab) (left : EnvState C -> nat) (K : nat) : Prop :=
  (forall e, left (env_reset C e).2 <= K)
  /\ (forall e a, (env_step C e a).1.2 = false -> left (env_step C e a).2 < left e)
  /\ (forall e, left (space_sample C e).2 <= left e)
  /\ (forall e, left (env_render C e) <= left e).

(** [use_n_step] as the constructor sets it. *)
Definition consistent {C} (w : Worker C) : Prop :=
  use_n_step w = Z.ltb 1 (n_step (hyper_params w)).

(** Entries the buffer still lacks plus transitions the window still needs
    before it is full. *)
Definition deficit {C} (c : Config C) : nat :=
  (Z.to_nat (local_buffer_max_size (hyper_params (c_worker c)))
   - field_len (c_memory c) "states")
  + (if use_n_step (c_worker c)
     then Z.to_nat (n_step (hyper_params (c_worker c))) - 1 - length (c_queue c)
     else 0).

(** A bound on the machine steps left before [collect_data] returns. *)
Definition steps_bound {C} (left : EnvState C -> nat) (K : nat) (c : Config C) : nat :=
  match c_phase c with
  | Returned => 0
  | LoopHead =>
      if Z.ltb (Z.of_nat (field_len (c_memory c) "states"))
               (local_buffer_max_size (hyper_params (c_worker c)))
      then (K + 4) * deficit c + K + 3 else 1
  | InEpisode _ _ _ => left (env (c_worker c)) + 2 + (K + 4) * deficit c
  end.

(** What holds of every configuration [collect_data] reaches. *)
Definition reachable_shape {C} (c : Config C) : Prop :=
  consistent (c_worker c)
  /\ (use_n_step (c_worker c) = true ->
      length (c_queue c) <= Z.to_nat (n_step (hyper_params (c_worker c))))
  /\ exists n,
       buffer_of_len (c_memory c) n
       /\ (c_phase c = Returned ->
           (local_buffer_max_size (hyper_params (c_worker c)) <= Z.of_nat n)%Z).

(** Every new array has as many elements as the parameter it is paired with. *)
Definition shapes_agree (h : Heap) (net : Network) (new_params : list NdArray) : Prop :=
  forall i p a, net !! i = Some p -> new_params !! i = Some a ->
    exists old, h !! p = Some old /\ length old = length a.

(** Entry [i] of the field [k] of a buffer. *)
Definition field (m : LocalMemory) (k : string) (i : nat) : option Value :=
  match dict_get m k with
  | Some l => l !! i
  | None => None
  end.

(** The decrement [select_action] applies to [epsilon]. *)
Definition decrement {C} (w : Worker C) : Q :=
  ((max_epsilon w - min_epsilon w) * epsilon_decay (hyper_params w))%Q.

(** The buffer size [n] is within what the threshold and one more episode
    allow: [left] bounds the rest of the running episode. *)
Definition within_overshoot {C} (left : EnvState C -> nat) (K : nat)
    (c : Config C) (n : nat) : Prop :=
  match c_phase c with
  | InEpisode _ _ _ =>
      n + 1 + left (env (c_worker c))
      <= Z.to_nat (local_buffer_max_size (hyper_params (c_worker c))) + K
  | _ => n <= Z.to_nat (local_buffer_max_size (hyper_params (c_worker c))) + K
  end.

(** A buffer of raw transitions in which an entry that did not end its
    episode is followed by the entry that starts where it stopped; [ph] is the
    phase of the collection the buffer belongs to, and ties the last entry to
    the state the running episode is in. *)
Definition raw_shape (m : LocalMemory) (ph : Phase) : Prop :=
  exists l1 l2 l3 l4 l5 n,
    m = memory_of l1 l2 l3 l4 l5
    /\ length l1 = n /\ length l4 = n /\ length l5 = n
    /\ (forall i v, l5 !! i = Some v -> v = VInt 0 \/ v = VInt 1)
    /\ (forall i s, l5 !! i = Some (VInt 0) -> l1 !! S i = Some s ->
          l4 !! i = Some s)
    /\ (forall i, S i = n -> l5 !! i = Some (VInt 0) ->
          match ph with
          | InEpisode state _ _ => l4 !! i = Some (VArr state)
          | _ => False
          end).

(** * Properties *)

(** ** Python's [max] *)

Lemma Qltb_lt (x y : Q) : Qltb x y = true <-> (x < y)%Q.
Proof.
  unfold Qltb. rewrite negb_true_iff, <- not_true_iff_false, Qle_bool_iff.
  split; [apply Qnot_le_lt | apply Qlt_not_le].
Qed.

Lemma Qltb_ge (x y : Q) : Qltb x y = false <-> (y <= x)%Q.
Proof.
  unfold Qltb. rewrite negb_false_iff. apply Qle_bool_iff.
Qed.

Lemma py_max_ge_r (a b : Q) : (b <= py_max a b)%Q.
Proof.
  unfold py_max. destruct (Qltb a b) eqn:E; [lra | by apply Qltb_ge].
Qed.

Lemma py_max_lub (a b c : Q) : (a <= c)%Q -> (b <= c)%Q -> (py_max a b <= c)%Q.
Proof. unfold py_max. by destruct (Qltb a b). Qed.

(** ** Exploration policy *)

Section Exploration.
Context {C : Collab}.
Implicit Types (w : Worker C) (s : Obs).

(** Both branches of [select_action] end in the same decrement. *)
Lemma select_action_epsilon w s :
  epsilon (select_action w s).2 = decay_epsilon w.
Proof.
  unfold select_action.
  destruct (np_random C (np_rng w)) as [draw g].
  destruct (explores w draw); [destruct (space_sample C _) as [a e]|]; done.
Qed.

Lemma select_action_config w s :
  max_epsilon (select_action w s).2 = max_epsilon w
  /\ min_epsilon (select_action w s).2 = min_epsilon w
  /\ hyper_params (select_action w s).2 = hyper_params w
  /\ use_n_step (select_action w s).2 = use_n_step w
  /\ worker_render (select_action w s).2 = worker_render w
  /\ dqn (select_action w s).2 = dqn w
  /\ heap (select_action w s).2 = heap w.
Proof.
  unfold select_action.
  destruct (np_random C (np_rng w)) as [draw g].
  destruct (explores w draw); [destruct (space_sample C _) as [a e]|]; done.
Qed.

Lemma decay_epsilon_floor w : (min_epsilon w <= decay_epsilon w)%Q.
Proof. apply py_max_ge_r. Qed.

Lemma decay_epsilon_le w :
  (min_epsilon w <= epsilon w)%Q ->
  (0 <= (max_epsilon w - min_epsilon w) * epsilon_decay (hyper_params w))%Q ->
  (decay_epsilon w <= epsilon w)%Q.
Proof. intros Hmin Hd. apply py_max_lub; lra. Qed.

(** C1 (amended): over successive calls of [select_action], each new value of
    [epsilon] is [max(previous - (max_epsilon - min_epsilon) * epsilon_decay,
    min_epsilon)] whichever branch selected the action, and it is at least
    [min_epsilon]; it does not exceed the previous value provided the
    decrement [(max_epsilon - min_epsilon) * epsilon_decay] is not negative
    and [epsilon] started at or above [min_epsilon]. *)
Theorem select_action_epsilon_chain w (states : list Obs) (i : nat) (e e' : Q) :
  (epsilon w :: epsilon_trace w states) !! i = Some e ->
  (epsilon w :: epsilon_trace w states) !! S i = Some e' ->
  e' = py_max (e - (max_epsilon w - min_epsilon w) * epsilon_decay (hyper_params w))
              (min_epsilon w)
  /\ (min_epsilon w <= e')%Q
  /\ ((min_epsilon w <= epsilon w)%Q ->
      (0 <= (max_epsilon w - min_epsilon w) * epsilon_decay (hyper_params w))%Q ->
      (e' <= e)%Q).
Proof.
  revert w i. induction states as [|s rest IH]; intros w i Hi Hi'.
  { destruct i; discriminate. }
  simpl in Hi, Hi'.
  destruct (select_action_config w s) as (Hmax & Hmin & Hhp & _).
  pose proof (select_action_epsilon w s) as Heps.
  destruct i as [|i].
  - simpl in Hi, Hi'. injection Hi as <-. injection Hi' as <-.
    rewrite Heps. split; [done|]. split; [apply decay_epsilon_floor|].
    apply decay_epsilon_le.
  - specialize (IH (select_action w s).2 i Hi Hi').
    rewrite Hmax, Hmin, Hhp, Heps in IH.
    destruct IH as (Heq & Hfloor & Hle).
    split; [done|]. split; [done|].
    intros _ Hd. apply Hle; [apply decay_epsilon_floor | done].
Qed.

End Exploration.

Lemma select_action_epsilon_chain_witness :
  exists e e' : Q,
    (e' <= e)%Q /\ ((1 # 100) <= e')%Q
    /\ (epsilon (Toy.worker 1 100 [])
        :: epsilon_trace (Toy.worker 1 100 []) [[0%Q]; [1%Q]]) !! 2 = Some e'.
Proof.
  eexists _, _.
  destruct (select_action_epsilon_chain (Toy.worker 1 100 []) [[0%Q]; [1%Q]] 1 _ _
              eq_refl eq_refl) as (_ & Hfloor & Hle).
  split; [apply Hle; vm_compute; discriminate|].
  split; [exact Hfloor | reflexivity].
Defined.

(** C1, as stated, fails: with a negative [epsilon_decay] the first call
    raises [epsilon] from 1 to 1099/1000. *)
Lemma select_action_epsilon_can_rise :
  ~ (epsilon (select_action Toy.rising_worker [0%Q]).2
     <= epsilon Toy.rising_worker)%Q.
Proof. vm_compute. intros H. by apply H. Qed.

(** ** The local buffer *)

Lemma buffer_of_len_inv (m : LocalMemory) (n : nat) :
  buffer_of_len m n ->
  exists l1 l2 l3 l4 l5,
    m = memory_of l1 l2 l3 l4 l5
    /\ length l1 = n /\ length l2 = n /\ length l3 = n
    /\ length l4 = n /\ length l5 = n.
Proof.
  intros [Hk Hl].
  destruct m as [|[k1 l1] [|[k2 l2] [|[k3 l3] [|[k4 l4] [|[k5 l5] [|? ?]]]]]];
    try discriminate Hk.
  injection Hk as -> -> -> -> ->.
  repeat (apply Forall_cons_1 in Hl as [? Hl]).
  by exists l1, l2, l3, l4, l5.
Qed.

Lemma buffer_of_len_memory_of (l1 l2 l3 l4 l5 : list Value) (n : nat) :
  length l1 = n -> length l2 = n -> length l3 = n ->
  length l4 = n -> length l5 = n ->
  buffer_of_len (memory_of l1 l2 l3 l4 l5) n.
Proof.
  intros. split; [done|]. unfold memory_of. by repeat constructor.
Qed.

Lemma buffer_of_len_empty : buffer_of_len empty_memory 0.
Proof. by apply (buffer_of_len_memory_of [] [] [] [] []). Qed.

Lemma buffer_of_len_field (m : LocalMemory) (n : nat) :
  buffer_of_len m n -> field_len m "states" = n.
Proof.
  intros H. apply buffer_of_len_inv in H as (l1 & l2 & l3 & l4 & l5 & -> & H & _).
  exact H.
Qed.

(** The [zip] loop over a five-tuple reaches each of the five sequences once. *)
Lemma append_entries_tuple (m : LocalMemory) (n : nat) (t : Transition) :
  buffer_of_len m n -> extended_by m t (append_entries m (tuple_of t)).
Proof.
  intros H. apply buffer_of_len_inv in H as (l1 & l2 & l3 & l4 & l5 & -> & _).
  by exists l1, l2, l3, l4, l5.
Qed.

Lemma extended_by_len (m m' : LocalMemory) (t : Transition) (n : nat) :
  buffer_of_len m n -> extended_by m t m' -> buffer_of_len m' (S n).
Proof.
  intros H (l1 & l2 & l3 & l4 & l5 & -> & ->).
  apply buffer_of_len_inv in H as (k1 & k2 & k3 & k4 & k5 & E & H1 & H2 & H3 & H4 & H5).
  injection E as -> -> -> -> ->.
  apply buffer_of_len_memory_of; rewrite length_app; simpl; lia.
Qed.

(** ** One transition *)

Section Recording.
Context {C : Collab}.
Implicit Types (w : Worker C) (m : LocalMemory) (q : list Transition)
  (t : Transition) (c : Config C).

Lemma record_transition_queue w m q t :
  (record_transition w m q t).2 =
  if use_n_step w
  then deque_append (Z.to_nat (n_step (hyper_params w))) q t else q.
Proof.
  unfold record_transition. destruct (use_n_step w); [|done].
  by destruct (Z.eqb _ _).
Qed.

Lemma record_transition_memory w m q t :
  (record_transition w m q t).1 =
  if accepts w q t then append_entries m (tuple_of (appended w q t)) else m.
Proof.
  unfold record_transition, accepts, appended.
  destruct (use_n_step w); [|done]. by destruct (Z.eqb _ _).
Qed.

Lemma record_transition_grows w m q t n :
  buffer_of_len m n ->
  if accepts w q t
  then extended_by m (appended w q t) (record_transition w m q t).1
       /\ buffer_of_len (record_transition w m q t).1 (S n)
  else (record_transition w m q t).1 = m.
Proof.
  intros H. rewrite record_transition_memory.
  destruct (accepts w q t); [|done].
  pose proof (append_entries_tuple m n (appended w q t) H) as He.
  split; [done|]. by eapply extended_by_len.
Qed.

Lemma record_transition_len w m q t n :
  buffer_of_len m n ->
  buffer_of_len (record_transition w m q t).1
    (if accepts w q t then S n else n).
Proof.
  intros H. pose proof (record_transition_grows w m q t n H) as G.
  destruct (accepts w q t); [by destruct G | by rewrite G].
Qed.

(** What a pass through the body of [while not done] does: one action, one
    environment step, one recorded transition. *)
Lemma loop_body_spec w m q (state : Obs) (score : Q) (num_steps : Z) :
  exists (w2 : Worker C) (e1 : EnvState C) (action : Action),
    let '(next_state, reward, done) := (env_step C e1 action).1 in
    let t := mkTransition state action reward next_state (Z.b2z done) in
    loop_body w m q state score num_steps =
      mkConfig w2 (record_transition w2 m q t).1 (record_transition w2 m q t).2
        (if done then LoopHead
         else InEpisode next_state (score + reward)%Q (num_steps + 1)%Z)
    /\ (e1 = shown_env w \/ e1 = (space_sample C (shown_env w)).2)
    /\ env w2 = (env_step C e1 action).2
    /\ hyper_params w2 = hyper_params w
    /\ use_n_step w2 = use_n_step w
    /\ worker_render w2 = worker_render w
    /\ max_epsilon w2 = max_epsilon w
    /\ min_epsilon w2 = min_epsilon w
    /\ epsilon w2 = decay_epsilon w
    /\ dqn w2 = dqn w /\ heap w2 = heap w.
Proof.
  unfold loop_body, select_action, step, shown_env.
  set (w0 := if worker_render w then _ else w).
  assert (Hw0 : hyper_params w0 = hyper_params w /\ use_n_step w0 = use_n_step w
    /\ worker_render w0 = worker_render w /\ max_epsilon w0 = max_epsilon w
    /\ min_epsilon w0 = min_epsilon w /\ epsilon w0 = epsilon w
    /\ dqn w0 = dqn w /\ heap w0 = heap w
    /\ env w0 = if worker_render w then env_render C (env w) else env w)
    by (subst w0; destruct (worker_render w) eqn:E; repeat split; done).
  destruct Hw0 as (H1 & H2 & H3 & H4 & H5 & H6 & H7 & H8 & H9).
  assert (Hd : decay_epsilon w0 = decay_epsilon w)
    by (unfold decay_epsilon; by rewrite H1, H4, H5, H6).
  destruct (np_random C (np_rng w0)) as [draw g].
  destruct (explores w0 draw).
  - destruct (space_sample C (env (set_np_rng w0 g))) as [a e] eqn:Es.
    simpl in Es. simpl.
    destruct (env_step C e a) as [[[next_state reward] done] e'] eqn:Ee.
    eexists _, e, a. rewrite Ee. simpl.
    destruct (record_transition _ m q _) as [m' q'] eqn:Er.
    split; [by rewrite Er|].
    split; [right; by rewrite <- H9, Es|].
    by repeat split.
  - simpl.
    destruct (env_step C (env w0) _) as [[[next_state reward] done] e'] eqn:Ee.
    eexists _, (env w0), _. rewrite Ee. simpl.
    destruct (record_transition _ m q _) as [m' q'] eqn:Er.
    split; [by rewrite Er|].
    split; [left; by rewrite H9|].
    by repeat split.
Qed.

End Recording.

(** ** The collection loop *)

Section Collecting.
Context {C : Collab}.
Implicit Types (w : Worker C) (m : LocalMemory) (q : list Transition)
  (t : Transition) (c : Config C).

Lemma after_S k c : after (S k) c = machine_step (after k c).
Proof. done. Qed.

(** The outer loop head either returns or resets the environment; it
    touches neither the buffer nor the window. *)
Lemma loop_head_spec w m q :
  c_memory (loop_head w m q) = m
  /\ c_queue (loop_head w m q) = q
  /\ (if Z.ltb (Z.of_nat (field_len m "states"))
               (local_buffer_max_size (hyper_params w))
      then exists state,
             state = (env_reset C (env w)).1
             /\ c_phase (loop_head w m q) = InEpisode state 0%Q 0%Z
             /\ c_worker (loop_head w m q) = set_env w (env_reset C (env w)).2
      else loop_head w m q = mkConfig w m q Returned).
Proof.
  unfold loop_head. destruct (Z.ltb _ _); [|done].
  destruct (env_reset C (env w)) as [state e]. simpl.
  split; [done|]. split; [done|]. by exists state.
Qed.

(** No machine step changes the worker's configuration or its network. *)
Lemma machine_step_config c :
  hyper_params (c_worker (machine_step c)) = hyper_params (c_worker c)
  /\ use_n_step (c_worker (machine_step c)) = use_n_step (c_worker c)
  /\ worker_render (c_worker (machine_step c)) = worker_render (c_worker c)
  /\ max_epsilon (c_worker (machine_step c)) = max_epsilon (c_worker c)
  /\ min_epsilon (c_worker (machine_step c)) = min_epsilon (c_worker c)
  /\ dqn (c_worker (machine_step c)) = dqn (c_worker c)
  /\ heap (c_worker (machine_step c)) = heap (c_worker c).
Proof.
  unfold machine_step. destruct (c_phase c) as [|state score num_steps|].
  - destruct (loop_head_spec (c_worker c) (c_memory c) (c_queue c)) as (_ & _ & H).
    destruct (Z.ltb _ _).
    + destruct H as (state & _ & _ & ->). by repeat split.
    + rewrite H. by repeat split.
  - destruct (loop_body_spec (c_worker c) (c_memory c) (c_queue c) state score num_steps)
      as (w2 & e1 & action & H).
    destruct (env_step C e1 action).1 as [[next_state reward] done].
    destruct H as (-> & _ & _ & H). simpl. tauto.
  - by repeat split.
Qed.

Lemma after_config k c :
  hyper_params (c_worker (after k c)) = hyper_params (c_worker c)
  /\ use_n_step (c_worker (after k c)) = use_n_step (c_worker c)
  /\ worker_render (c_worker (after k c)) = worker_render (c_worker c)
  /\ max_epsilon (c_worker (after k c)) = max_epsilon (c_worker c)
  /\ min_epsilon (c_worker (after k c)) = min_epsilon (c_worker c)
  /\ dqn (c_worker (after k c)) = dqn (c_worker c)
  /\ heap (c_worker (after k c)) = heap (c_worker c).
Proof.
  induction k as [|k IH]; [by repeat split|].
  rewrite after_S. pose proof (machine_step_config (after k c)) as H.
  destruct IH as (I1 & I2 & I3 & I4 & I5 & I6 & I7).
  destruct H as (H1 & H2 & H3 & H4 & H5 & H6 & H7).
  repeat split; congruence.
Qed.

(** A machine step keeps the five sequences in lock-step and adds at most one
    entry to each. *)
Lemma machine_step_buffer c n :
  buffer_of_len (c_memory c) n ->
  exists n', buffer_of_len (c_memory (machine_step c)) n' /\ n <= n' <= S n.
Proof.
  intros Hm. unfold machine_step.
  destruct (c_phase c) as [|state score num_steps|].
  - destruct (loop_head_spec (c_worker c) (c_memory c) (c_queue c)) as (-> & _).
    exists n. split; [done | lia].
  - destruct (loop_body_spec (c_worker c) (c_memory c) (c_queue c) state score num_steps)
      as (w2 & e1 & action & H).
    destruct (env_step C e1 action).1 as [[next_state reward] done].
    destruct H as (-> & _). simpl.
    eexists. split; [by apply record_transition_len|].
    destruct (accepts _ _ _); lia.
  - exists n. split; [done | lia].
Qed.

Lemma after_buffer k c n :
  buffer_of_len (c_memory c) n ->
  exists n', buffer_of_len (c_memory (after k c)) n' /\ n <= n'.
Proof.
  intros Hm. induction k as [|k (n' & IH & Hle)]; [by exists n|].
  rewrite after_S.
  destruct (machine_step_buffer _ _ IH) as (n'' & H & Hn).
  exists n''. split; [done | lia].
Qed.

(** C2: after any number of steps of [collect_data] the five field sequences
    of the local buffer have one common length, and recording a transition
    there appends exactly one entry to each of them when the transition is
    accepted (the raw transition for [n_step] 1, the folded one when the
    window is full) and leaves the buffer as it is otherwise. *)
Theorem local_buffer_lock_step w (k : nat) :
  exists n,
    buffer_of_len (c_memory (after k (init_config w))) n
    /\ forall (w' : Worker C) t,
         let c := after k (init_config w) in
         let m' := (record_transition w' (c_memory c) (c_queue c) t).1 in
         if accepts w' (c_queue c) t
         then extended_by (c_memory c) (appended w' (c_queue c) t) m'
              /\ buffer_of_len m' (S n)
         else m' = c_memory c.
Proof.
  destruct (after_buffer k (init_config w) 0 buffer_of_len_empty) as (n & Hn & _).
  exists n. split; [done|].
  intros w' t. by apply record_transition_grows.
Qed.

(** *** The n-step window *)

Lemma deque_append_length {A} (maxlen : nat) (l : list A) (x : A) :
  length l <= maxlen ->
  length (deque_append maxlen l x) = Nat.min (S (length l)) maxlen.
Proof.
  intros H. unfold deque_append. rewrite length_app.
  change (length [x]) with 1.
  destruct (Nat.ltb_spec maxlen (length l + 1)).
  - rewrite Nat.min_r by lia.
    destruct l as [|a l']; simpl in *; [lia|]. rewrite length_app. simpl. lia.
  - rewrite Nat.min_l by lia. rewrite length_app. simpl. lia.
Qed.

Lemma deque_append_full {A} (maxlen : nat) (l : list A) (x : A) :
  length l = maxlen -> 0 < maxlen ->
  deque_append maxlen l x = tail l ++ [x].
Proof.
  intros H H0. unfold deque_append. rewrite length_app. simpl.
  destruct (Nat.ltb_spec maxlen (length l + 1)); [|lia].
  destruct l; simpl in *; [lia | done].
Qed.

(** Pushing into a full window drops its oldest member and folds the rest
    together with the new transition. *)
Lemma record_transition_full w m q t :
  use_n_step w = true ->
  (1 < n_step (hyper_params w))%Z ->
  Z.of_nat (length q) = n_step (hyper_params w) ->
  record_transition w m q t =
    (append_entries m
       (tuple_of (preprocess_nstep C (hyper_params w) (tail q ++ [t]))),
     tail q ++ [t])
  /\ length (tail q ++ [t]) = length q.
Proof.
  intros Hu Hn Hq. unfold record_transition. rewrite Hu.
  rewrite (deque_append_full _ q t) by lia.
  assert (Hl : length (tail q ++ [t]) = length q).
  { destruct q; simpl in *; [lia|]. rewrite length_app. simpl. lia. }
  rewrite Hl, Hq, Z.eqb_refl. done.
Qed.

(** Window and buffer sizes after [k] machine steps, counted in transitions
    taken, from any configuration whose window respects its bound. *)
Lemma window_counts c (n0 : nat) (k : nat) :
  use_n_step (c_worker c) = true ->
  (1 < n_step (hyper_params (c_worker c)))%Z ->
  length (c_queue c) <= Z.to_nat (n_step (hyper_params (c_worker c))) ->
  buffer_of_len (c_memory c) n0 ->
  let N := Z.to_nat (n_step (hyper_params (c_worker c))) in
  let L0 := length (c_queue c) in
  let T := transitions k c in
  length (c_queue (after k c)) = Nat.min (L0 + T) N
  /\ buffer_of_len (c_memory (after k c)) (n0 + (T - (N - 1 - L0))).
Proof.
  intros Hu Hn HL Hm N L0 T. subst T.
  induction k as [|k [IHq IHm]].
  { simpl. split; [lia|]. by replace (n0 + _) with n0 by lia. }
  rewrite after_S. simpl transitions.
  destruct (after_config k c) as (Hhp & Huse & _).
  unfold machine_step, takes_transition.
  destruct (c_phase (after k c)) as [|state score num_steps|].
  - destruct (loop_head_spec (c_worker (after k c)) (c_memory (after k c))
                (c_queue (after k c))) as (-> & -> & _).
    rewrite Nat.add_0_r. done.
  - destruct (loop_body_spec (c_worker (after k c)) (c_memory (after k c))
                (c_queue (after k c)) state score num_steps)
      as (w2 & e1 & action & H).
    destruct (env_step C e1 action).1 as [[next_state reward] done].
    destruct H as (-> & _ & _ & Hhp2 & Huse2 & _). simpl.
    rewrite record_transition_queue, Huse2, Huse, Hu, Hhp2, Hhp.
    fold N.
    assert (Hlen : length (deque_append N (c_queue (after k c))
       (mkTransition state action reward next_state (Z.b2z done)))
       = Nat.min (L0 + (transitions k c + 1)) N).
    { rewrite deque_append_length; lia. }
    split; [done|].
    pose proof (record_transition_len w2 (c_memory (after k c))
      (c_queue (after k c))
      (mkTransition state action reward next_state (Z.b2z done)) _ IHm) as Hr.
    unfold accepts in Hr. rewrite Huse2, Huse, Hu, Hhp2, Hhp in Hr.
    fold N in Hr. rewrite Hlen in Hr.
    destruct (Z.eqb_spec (n_step (hyper_params (c_worker c)))
                (Z.of_nat (Nat.min (L0 + (transitions k c + 1)) N))) as [E|E].
    + replace (n0 + (transitions k c + 1 - (N - 1 - L0)))
        with (S (n0 + (transitions k c - (N - 1 - L0)))) by lia. done.
    + replace (n0 + (transitions k c + 1 - (N - 1 - L0)))
        with (n0 + (transitions k c - (N - 1 - L0))) by lia. done.
  - rewrite Nat.add_0_r. done.
Qed.

(** The first transition of a new episode entering a full window. *)
Lemma episode_start_fold c :
  c_phase c = LoopHead ->
  use_n_step (c_worker c) = true ->
  (1 < n_step (hyper_params (c_worker c)))%Z ->
  Z.of_nat (length (c_queue c)) = n_step (hyper_params (c_worker c)) ->
  (Z.of_nat (field_len (c_memory c) "states")
   < local_buffer_max_size (hyper_params (c_worker c)))%Z ->
  exists t,
    t_state t = (env_reset C (env (c_worker c))).1
    /\ c_queue (after 2 c) = tail (c_queue c) ++ [t]
    /\ c_memory (after 2 c) =
       append_entries (c_memory c)
         (tuple_of (preprocess_nstep C (hyper_params (c_worker c))
                      (tail (c_queue c) ++ [t]))).
Proof.
  intros Hp Hu Hn Hq Hlt.
  destruct (loop_head_spec (c_worker c) (c_memory c) (c_queue c)) as (Hm & Hqq & H).
  apply Z.ltb_lt in Hlt. rewrite Hlt in H.
  destruct H as (state & Hs & Hph & Hw).
  destruct (loop_body_spec (set_env (c_worker c) (env_reset C (env (c_worker c))).2)
              (c_memory c) (c_queue c) state 0%Q 0%Z) as (w2 & e1 & action & H).
  destruct (env_step C e1 action).1 as [[next_state reward] done].
  destruct H as (Hbody & _ & _ & Hhp2 & Huse2 & _). simpl in Hhp2, Huse2.
  set (t := mkTransition state action reward next_state (Z.b2z done)) in *.
  assert (E : after 2 c =
    mkConfig w2 (record_transition w2 (c_memory c) (c_queue c) t).1
      (record_transition w2 (c_memory c) (c_queue c) t).2
      (if done then LoopHead
       else InEpisode next_state (0 + reward)%Q (0 + 1)%Z)).
  { change (after 2 c) with (machine_step (machine_step c)).
    unfold machine_step at 2. rewrite Hp.
    unfold machine_step. by rewrite Hph, Hm, Hqq, Hw. }
  rewrite E. simpl.
  destruct (record_transition_full w2 (c_memory c) (c_queue c) t) as [-> _];
    [congruence.. |].
  exists t. split; [exact Hs|]. by rewrite Hhp2.
Qed.

(** C4: with [n_step] larger than 1, a window that has filled stays full
    for the rest of the collection, through episode ends and resets, and from
    then on the buffer gains exactly one entry per transition taken; each
    push drops the oldest member, keeps the others and folds the resulting
    window into the entry appended. *)
Theorem nstep_window_slides c (n : nat) :
  use_n_step (c_worker c) = true ->
  (1 < n_step (hyper_params (c_worker c)))%Z ->
  Z.of_nat (length (c_queue c)) = n_step (hyper_params (c_worker c)) ->
  buffer_of_len (c_memory c) n ->
  (forall j,
     Z.of_nat (length (c_queue (after j c))) = n_step (hyper_params (c_worker c))
     /\ buffer_of_len (c_memory (after j c)) (n + transitions j c))
  /\ (forall t,
        record_transition (c_worker c) (c_memory c) (c_queue c) t =
          (append_entries (c_memory c)
             (tuple_of (preprocess_nstep C (hyper_params (c_worker c))
                          (tail (c_queue c) ++ [t]))),
           tail (c_queue c) ++ [t])).
Proof.
  intros Hu Hn Hq Hm. split.
  - intros j.
    destruct (window_counts c n j Hu Hn ltac:(lia) Hm) as [Hl Hb].
    split.
    + rewrite Hl. lia.
    + by replace (n + transitions j c)
        with (n + (transitions j c
                   - (Z.to_nat (n_step (hyper_params (c_worker c))) - 1
                      - length (c_queue c)))) by lia.
  - intros t. by destruct (record_transition_full (c_worker c) (c_memory c)
                             (c_queue c) t Hu Hn Hq) as [-> _].
Qed.

(** C10: the window starts empty and a reset at the loop head leaves it as
    it is; so the window holds the last [min T n_step] transitions of the
    whole collection and the buffer has [T - (n_step - 1)] entries after [T]
    transitions, none during the first [n_step - 1]; and the first
    transition of an episode that starts with a full window is folded
    together with the [n_step - 1] newest transitions taken before the
    reset. *)
Theorem nstep_window_spans_episodes w :
  use_n_step w = true ->
  (1 < n_step (hyper_params w))%Z ->
  let N := Z.to_nat (n_step (hyper_params w)) in
  c_queue (init_config w) = []
  /\ (forall c, c_phase c = LoopHead ->
        c_queue (machine_step c) = c_queue c
        /\ c_memory (machine_step c) = c_memory c)
  /\ (forall k,
        let T := transitions k (init_config w) in
        length (c_queue (after k (init_config w))) = Nat.min T N
        /\ buffer_of_len (c_memory (after k (init_config w))) (T - (N - 1)))
  /\ (forall k,
        let c := after k (init_config w) in
        c_phase c = LoopHead ->
        length (c_queue c) = N ->
        (Z.of_nat (field_len (c_memory c) "states")
         < local_buffer_max_size (hyper_params w))%Z ->
        exists t,
          t_state t = (env_reset C (env (c_worker c))).1
          /\ c_queue (after 2 c) = tail (c_queue c) ++ [t]
          /\ c_memory (after 2 c) =
             append_entries (c_memory c)
               (tuple_of (preprocess_nstep C (hyper_params w)
                            (tail (c_queue c) ++ [t])))).
Proof.
  intros Hu Hn N. split; [done|]. split; [|split].
  - intros c Hp. unfold machine_step. rewrite Hp.
    by destruct (loop_head_spec (c_worker c) (c_memory c) (c_queue c))
      as (-> & -> & _).
  - intros k T.
    destruct (window_counts (init_config w) 0 k Hu Hn ltac:(simpl; lia)
                buffer_of_len_empty) as [Hl Hb].
    simpl in Hl, Hb. split; [exact Hl|].
    by replace (T - (N - 1)) with (T - (N - 1 - 0)) by lia.
  - intros k c Hp Hl Hlt.
    destruct (after_config k (init_config w)) as (Hhp & Huse & _).
    fold c in Hhp, Huse. simpl in Hhp, Huse.
    rewrite <- Hhp.
    apply episode_start_fold; rewrite ?Hhp, ?Huse; try done.
    subst N. lia.
Qed.

End Collecting.

Lemma nstep_window_slides_witness :
  Z.of_nat (length (c_queue (after 4 (after 3 (init_config (Toy.worker 2 100 []))))))
  = 2%Z
  /\ buffer_of_len
       (c_memory (after 4 (after 3 (init_config (Toy.worker 2 100 [])))))
       (1 + transitions 4 (after 3 (init_config (Toy.worker 2 100 [])))).
Proof.
  destruct (nstep_window_slides (after 3 (init_config (Toy.worker 2 100 []))) 1)
    as [Hall _].
  - reflexivity.
  - reflexivity.
  - reflexivity.
  - split; [reflexivity|]. vm_compute. repeat constructor.
  - exact (Hall 4).
Defined.

(** In the toy instance with a window of two, the fourth transition is the
    first of the second episode; the entry it produces starts at the last
    state of the first episode and carries that episode's [done] flag. *)
Lemma nstep_window_spans_episodes_witness :
  (forall k,
     buffer_of_len (c_memory (after k (init_config (Toy.worker 2 100 []))))
       (transitions k (init_config (Toy.worker 2 100 [])) - 1))
  /\ c_phase (after 4 (init_config (Toy.worker 2 100 []))) = LoopHead
  /\ c_memory (after 6 (init_config (Toy.worker 2 100 []))) =
     memory_of [VArr [0%Q]; VArr [1%Q]; VArr [2%Q]]
               [VInt 1; VInt 1; VInt 1]
               [VFloat (3 # 2); VFloat (3 # 2); VFloat (3 # 2)]
               [VArr [2%Q]; VArr [3%Q]; VArr [1%Q]]
               [VInt 0; VInt 1; VInt 1].
Proof.
  destruct (nstep_window_spans_episodes (Toy.worker 2 100 []) eq_refl eq_refl)
    as (_ & _ & Hcount & _).
  split; [intros k; apply (Hcount k)|].
  split; vm_compute; reflexivity.
Defined.

(** ** Termination of the collection *)

Section Termination.
Context {C : Collab} (left : EnvState C -> nat) (K : nat).
Hypothesis Hepisodic : episodic C left K.
Implicit Types (w : Worker C) (c : Config C).

Lemma run_more_fuel c (fuel fuel' : nat) r :
  run fuel c = Some r -> fuel <= fuel' -> run fuel' c = Some r.
Proof.
  revert c fuel'. induction fuel as [|fuel IH]; intros c fuel' Hr Hle.
  - destruct fuel'; simpl in *; by destruct (c_phase c).
  - destruct fuel' as [|fuel']; [lia|]. simpl in *.
    destruct (c_phase c); try done; apply IH; (done || lia).
Qed.

Lemma machine_step_progress c :
  reachable_shape c -> c_phase c <> Returned ->
  reachable_shape (machine_step c)
  /\ steps_bound left K (machine_step c) < steps_bound left K c.
Proof.
  destruct Hepisodic as (Hreset & Hstep & Hsample & Hrender).
  intros (Hcons & Hq & n & Hm & _) Hph.
  pose proof (buffer_of_len_field _ _ Hm) as Hfl.
  unfold machine_step, steps_bound at 2, deficit.
  destruct (c_phase c) as [|state score num_steps|] eqn:Ephase; [| |done].
  - (* loop head *)
    destruct (loop_head_spec (c_worker c) (c_memory c) (c_queue c)) as (Hm' & Hq' & H).
    destruct (Z.ltb_spec (Z.of_nat (field_len (c_memory c) "states"))
                (local_buffer_max_size (hyper_params (c_worker c)))) as [Hlt|Hge].
    + destruct H as (state & _ & Hph' & Hw').
      split.
      * unfold reachable_shape. rewrite Hm', Hq', Hw', Hph'.
        split; [done|]. split; [done|]. exists n. by split.
      * unfold steps_bound, deficit. rewrite Hph', Hm', Hq', Hw'. simpl.
        specialize (Hreset (env (c_worker c))). lia.
    + rewrite H. split.
      * split; [done|]. split; [done|]. exists n. split; [done|].
        intros _. simpl. lia.
      * unfold steps_bound. simpl. lia.
  - (* loop body *)
    destruct (loop_body_spec (c_worker c) (c_memory c) (c_queue c) state score num_steps)
      as (w2 & e1 & action & H).
    specialize (Hstep e1 action).
    destruct (env_step C e1 action) as [[[next_state reward] done] e'].
    simpl in H, Hstep.
    destruct H as (-> & He1 & Henv & Hhp & Huse & Hrend & _).
    set (t := mkTransition state action reward next_state (Z.b2z done)).
    assert (Hleft : left e1 <= left (env (c_worker c))).
    { unfold shown_env in He1. destruct He1 as [-> | ->].
      - destruct (worker_render (c_worker c)); [apply Hrender | done].
      - etrans; [apply Hsample|].
        destruct (worker_render (c_worker c)); [apply Hrender | done]. }
    pose proof (record_transition_len w2 (c_memory c) (c_queue c) t n Hm) as Hm2.
    pose proof (record_transition_queue w2 (c_memory c) (c_queue c) t) as Hq2.
    unfold accepts in Hm2. rewrite Huse, Hhp in Hm2, Hq2.
    unfold consistent in Hcons.
    set (N := Z.to_nat (n_step (hyper_params (c_worker c)))) in *.
    set (m2 := (record_transition w2 (c_memory c) (c_queue c) t).1) in *.
    set (q2 := (record_transition w2 (c_memory c) (c_queue c) t).2) in *.
    set (M := Z.to_nat (local_buffer_max_size (hyper_params (c_worker c)))).
    (* sizes after the step *)
    assert (Hsz : exists n2,
      buffer_of_len m2 n2 /\ n <= n2 <= S n
      /\ (use_n_step (c_worker c) = true -> length q2 <= N)
      /\ ((M - n2) + (if use_n_step (c_worker c) then N - 1 - length q2 else 0)
          <= (M - n) + (if use_n_step (c_worker c) then N - 1 - length (c_queue c) else 0))
      /\ (n2 < M ->
          (M - n2) + (if use_n_step (c_worker c) then N - 1 - length q2 else 0)
          < (M - n) + (if use_n_step (c_worker c) then N - 1 - length (c_queue c) else 0))).
    { destruct (use_n_step (c_worker c)) eqn:Eu.
      - specialize (Hq eq_refl).
        assert (1 < n_step (hyper_params (c_worker c)))%Z as Hn
          by (apply Z.ltb_lt; congruence).
        pose proof (deque_append_length N (c_queue c) t Hq) as Hl.
        rewrite <- Hq2 in Hl. rewrite <- Hq2 in Hm2.
        assert (HN : Z.of_nat N = n_step (hyper_params (c_worker c)))
          by (subst N; lia).
        clearbody N.
        destruct (Z.eqb_spec (n_step (hyper_params (c_worker c)))
                    (Z.of_nat (length q2))) as [E|E];
          eexists; (split; [exact Hm2|]); repeat split; lia.
      - eexists. split; [exact Hm2|]. rewrite Hq2. repeat split; (lia || done). }
    destruct Hsz as (n2 & Hb2 & Hn2 & Hql & Hdef & Hdef').
    pose proof (buffer_of_len_field _ _ Hb2) as Hfl2.
    split.
    + unfold reachable_shape. simpl.
      split; [unfold consistent; by rewrite Huse, Hhp|].
      split; [rewrite Huse, Hhp; exact Hql|].
      exists n2. split; [done|]. by destruct done.
    + unfold steps_bound, deficit. simpl.
      rewrite Huse, Hhp, Hfl, Hfl2, Henv. fold N M.
      destruct done.
      * destruct (Z.ltb_spec (Z.of_nat n2)
                    (local_buffer_max_size (hyper_params (c_worker c)))); [|nia].
        assert (n2 < M) as Hlt by lia. specialize (Hdef' Hlt). nia.
      * specialize (Hstep eq_refl). nia.
Qed.

Lemma run_within_bound (fuel : nat) c :
  reachable_shape c -> steps_bound left K c <= fuel ->
  exists m w' n,
    run fuel c = Some (m, w')
    /\ buffer_of_len m n
    /\ (local_buffer_max_size (hyper_params (c_worker c)) <= Z.of_nat n)%Z.
Proof.
  revert c. induction fuel as [|fuel IH]; intros c Hshape Hb.
  - destruct (c_phase c) eqn:E; unfold steps_bound in Hb; rewrite E in Hb.
    + destruct (Z.ltb _ _); lia.
    + lia.
    + destruct Hshape as (_ & _ & n & Hm & Hret).
      exists (c_memory c), (c_worker c), n. simpl. rewrite E. auto.
  - destruct (c_phase c) eqn:E.
    3:{ destruct Hshape as (_ & _ & n & Hm & Hret).
        exists (c_memory c), (c_worker c), n. simpl. rewrite E. auto. }
    all: destruct (machine_step_progress c Hshape ltac:(congruence)) as [Hs Hlt];
      destruct (IH (machine_step c) Hs ltac:(lia)) as (m & w' & n & Hr & Hm & Hn);
      exists m, w', n; simpl; rewrite E;
      destruct (machine_step_config c) as (<- & _); auto.
Qed.

Lemma init_config_shape w : consistent w -> reachable_shape (init_config w).
Proof.
  intros Hc. split; [done|]. split; [simpl; lia|].
  exists 0. split; [apply buffer_of_len_empty | done].
Qed.

(** C5 (amended): on an environment whose episodes end, [collect_data]
    returns, and every field of the buffer it returns has the same number of
    entries, which is at least [local_buffer_max_size]; the threshold is only
    looked at between episodes, so the count can exceed it. *)
Theorem collect_data_reaches_threshold w :
  consistent w ->
  exists m w' n,
    (forall fuel, steps_bound left K (init_config w) <= fuel ->
       collect_data fuel w = Some (m, w'))
    /\ (forall fuel r, collect_data fuel w = Some r -> r = (m, w'))
    /\ buffer_of_len m n
    /\ (local_buffer_max_size (hyper_params w) <= Z.of_nat n)%Z.
Proof.
  intros Hc.
  destruct (run_within_bound (steps_bound left K (init_config w)) (init_config w)
              (init_config_shape w Hc) ltac:(lia)) as (m & w' & n & Hr & Hm & Hn).
  exists m, w', n. split; [|split; [|by split]].
  - intros fuel Hle. by apply (run_more_fuel _ _ _ _ Hr).
  - intros fuel r Hr'. unfold collect_data in Hr'.
    pose proof (run_more_fuel _ _ (fuel + steps_bound left K (init_config w)) _ Hr'
                  ltac:(lia)) as H1.
    pose proof (run_more_fuel _ _ (fuel + steps_bound left K (init_config w)) _ Hr
                  ltac:(lia)) as H2.
    congruence.
Qed.

End Termination.

Lemma toy_episodic : episodic Toy.collab Toy.remaining 3.
Proof.
  unfold episodic, Toy.remaining. simpl.
  split; [intros; lia|]. split; [|split; intros; lia].
  intros e a H. destruct e as [|[|[|e]]]; simpl in *; (lia || discriminate).
Defined.

Lemma collect_data_reaches_threshold_witness :
  exists m w' n,
    collect_data 1000 (Toy.worker 1 100 []) = Some (m, w')
    /\ buffer_of_len m n /\ (100 <= Z.of_nat n)%Z.
Proof.
  destruct (collect_data_reaches_threshold (C:=Toy.collab) Toy.remaining 3 toy_episodic
              (Toy.worker 1 100 []) eq_refl) as (m & w' & n & Hrun & _ & Hm & Hn).
  exists m, w', n. split; [|by split].
  apply Hrun. vm_compute. lia.
Defined.

(** C5, as stated, fails: with episodes of three steps and a threshold of
    100 the buffer returned has 102 entries in every field. *)
Lemma collect_data_overshoots :
  option_map (fun r => map (fun kv => length kv.2) r.1)
    (collect_data 1000 (Toy.worker 1 100 []))
  = Some [102; 102; 102; 102; 102].
Proof. vm_compute. reflexivity. Qed.

(** ** The n-step fold *)

Lemma Qpower_succ_nat (g : Q) (k : nat) :
  (g ^ Z.of_nat (S k) == g * g ^ Z.of_nat k)%Q.
Proof.
  rewrite Nat2Z.inj_succ, <- Z.add_1_l.
  rewrite Qpower_plus' by lia. by rewrite Qpower_1_r.
Qed.

Lemma shifted_sum (g : Q) (rs : list Q) (k : nat) :
  (foldr Qplus 0 (imap (fun i r => g ^ Z.of_nat (S (k + i)) * r) rs)
   == g * foldr Qplus 0 (imap (fun i r => g ^ Z.of_nat (k + i) * r) rs))%Q.
Proof.
  revert k. induction rs as [|r rs IH]; intros k.
  - simpl. lra.
  - rewrite !imap_cons. cbn [foldr].
    rewrite (imap_ext _ (fun i r => g ^ Z.of_nat (S (S k + i)) * r)%Q)
      by (intros; simpl; by rewrite Nat.add_succ_r).
    rewrite (imap_ext (_ ∘ S) (fun i r => g ^ Z.of_nat (S k + i) * r)%Q)
      by (intros; simpl; by rewrite Nat.add_succ_r).
    rewrite IH, !Nat.add_0_r, (Qpower_succ_nat g k). ring.
Qed.

(** The discounted sum unrolls from the oldest reward. *)
Lemma discounted_sum_cons (g r : Q) (rs : list Q) :
  (discounted_sum g (r :: rs) == r + g * discounted_sum g rs)%Q.
Proof.
  unfold discounted_sum. rewrite imap_cons. cbn [foldr].
  pose proof (shifted_sum g rs 0) as H. simpl in H.
  change ((fun i r0 => g ^ Z.of_nat i * r0)%Q ∘ S)
    with (fun i r0 => g ^ Z.of_nat (S i) * r0)%Q.
  rewrite H. change (g ^ Z.of_nat 0)%Q with 1%Q. ring.
Qed.

Lemma discounted_sum_horner (g : Q) (window : list Transition) :
  (discounted_sum g (t_reward <$> window)
   == foldr (fun t acc => t_reward t + g * acc) 0 window)%Q.
Proof.
  induction window as [|t window IH]; [reflexivity|].
  rewrite fmap_cons, discounted_sum_cons. cbn [foldr]. by rewrite IH.
Qed.

Lemma last_deque_append {A} (maxlen : nat) (l : list A) (x : A) :
  0 < maxlen -> last (deque_append maxlen l x) = Some x.
Proof.
  intros H. unfold deque_append.
  destruct (Nat.ltb_spec maxlen (length (l ++ [x]))) as [Hlt|_];
    [|apply last_snoc].
  destruct l as [|a l]; [simpl in Hlt; lia|]. apply last_snoc.
Qed.

Lemma any_done_spec (window : list Transition) :
  Z.b2z (any_done window) = 1%Z
  <-> exists t, t ∈ window /\ t_done t <> 0%Z.
Proof.
  unfold any_done. split.
  - intros H. destruct (existsb _ window) eqn:E; [|discriminate].
    apply existsb_exists in E as (t & Hin & Ht).
    exists t. split; [by apply list_elem_of_In|].
    apply negb_true_iff, Z.eqb_neq in Ht. done.
  - intros (t & Hin & Ht).
    replace (existsb _ window) with true; [done|].
    symmetry. apply existsb_exists. exists t.
    split; [by apply list_elem_of_In|].
    by apply negb_true_iff, Z.eqb_neq.
Qed.

(** C3: when the window holds exactly [n_step] transitions after the push,
    the entry appended to the buffer is the fold of the window: its reward is
    the sum of [gamma^i * r_i] over the window, its [next_state] is that of
    the window's last member (the transition just taken) and its [done] is
    the disjunction of the members' flags. *)
Theorem nstep_fold_recorded (C : Collab) (w : Worker (with_nstep_fold C))
    (m : LocalMemory) (q : list Transition) (t : Transition) (n : nat) :
  use_n_step w = true ->
  (1 < n_step (hyper_params w))%Z ->
  buffer_of_len m n ->
  let window := deque_append (Z.to_nat (n_step (hyper_params w))) q t in
  Z.of_nat (length window) = n_step (hyper_params w) ->
  exists folded,
    extended_by m folded (record_transition w m q t).1
    /\ t_reward folded = discounted_sum (gamma (hyper_params w)) (t_reward <$> window)
    /\ (t_reward folded
        == foldr (fun t' acc => t_reward t' + gamma (hyper_params w) * acc) 0 window)%Q
    /\ last window = Some t
    /\ t_next_state folded = t_next_state t
    /\ t_done folded = Z.b2z (any_done window)
    /\ (t_done folded = 1%Z <-> exists t', t' ∈ window /\ t_done t' <> 0%Z).
Proof.
  intros Hu Hn Hm window Hlen.
  assert (Hlast : last window = Some t) by (apply last_deque_append; lia).
  exists (nstep_fold (hyper_params w) window).
  split.
  { pose proof (record_transition_grows w m q t n Hm) as H.
    unfold accepts, appended in H. rewrite Hu in H. fold window in H.
    rewrite <- Hlen, Z.eqb_refl in H. by destruct H. }
  split; [done|]. split; [apply discounted_sum_horner|].
  split; [done|]. split; [simpl; by rewrite Hlast|].
  split; [done|]. apply any_done_spec.
Qed.

Lemma nstep_fold_recorded_witness :
  exists folded,
    extended_by empty_memory folded
      (record_transition (C:=with_nstep_fold Toy.collab) (Toy.worker 3 100 [])
         empty_memory
         [mkTransition [0%Q] 1%Z 1%Q [1%Q] 0%Z;
          mkTransition [1%Q] 1%Z 2%Q [2%Q] 0%Z]
         (mkTransition [2%Q] 0%Z 4%Q [3%Q] 1%Z)).1
    /\ (t_reward folded == 3)%Q
    /\ t_next_state folded = [3%Q]
    /\ t_done folded = 1%Z.
Proof.
  destruct (nstep_fold_recorded Toy.collab (Toy.worker 3 100 []) empty_memory
              [mkTransition [0%Q] 1%Z 1%Q [1%Q] 0%Z;
          mkTransition [1%Q] 1%Z 2%Q [2%Q] 0%Z]
              (mkTransition [2%Q] 0%Z 4%Q [3%Q] 1%Z) 0
              eq_refl eq_refl buffer_of_len_empty eq_refl)
    as (folded & Hext & _ & Hr & _ & Hns & Hd & _).
  exists folded. split; [exact Hext|].
  split; [rewrite Hr; reflexivity|]. split; [exact Hns | exact Hd].
Defined.

(** ** Priorities *)

Section Priorities.
Context {C : Collab}.
Implicit Types (w : Worker C) (memory : LocalMemory).

Lemma element_wise_loss_total w memory n :
  buffer_of_len memory n -> is_Some (element_wise_loss w memory).
Proof.
  intros H. apply buffer_of_len_inv in H as (l1 & l2 & l3 & l4 & l5 & -> & _).
  by eexists.
Qed.


End Priorities.


(** ** Synchronization *)

Section Synchronizing.
Context {C : Collab}.
Implicit Types (w : Worker C) (h : Heap) (net : Network)
  (new_params : list NdArray).

Lemma FloatTensor_exact (a : NdArray) :
  (forall x, x ∈ a -> float32 C x = x) -> FloatTensor C a = a.
Proof.
  intros H. unfold FloatTensor. induction a as [|x a IH]; [done|].
  rewrite fmap_cons, H by left. f_equal. apply IH. intros y Hy. apply H. by right.
Qed.

(** The [zip] loop: pairs are served in enumeration order, each parameter
    cell is overwritten in place, and cells beyond the shorter sequence are
    not touched. *)
Lemma _synchronize_spec h net new_params :
  NoDup net -> shapes_agree h net new_params ->
  exists h',
    _synchronize C h net new_params = Some h'
    /\ (forall i p a, net !! i = Some p -> new_params !! i = Some a ->
          h' !! p = Some (FloatTensor C a))
    /\ (forall p, (forall i, i < length new_params -> net !! i <> Some p) ->
          h' !! p = h !! p).
Proof.
  unfold _synchronize.
  revert h new_params. induction net as [|p net IH]; intros h new_params Hnd Hsh.
  { exists h. split; [done|]. split; [intros i ? ? Hi; by destruct i | done]. }
  destruct new_params as [|a new_params].
  { exists h. split; [done|]. split; [intros i ? ? _ Hi; by destruct i | done]. }
  apply NoDup_cons in Hnd as [Hp Hnd].
  destruct (Hsh 0 p a eq_refl eq_refl) as (old & Hold & Hlen).
  set (h1 := <[p := FloatTensor C a]> h).
  assert (Hcopy : copy_ h p (FloatTensor C a) = Some h1).
  { unfold copy_. rewrite Hold.
    unfold FloatTensor at 1. rewrite length_fmap, Hlen, Nat.eqb_refl. done. }
  destruct (IH h1 new_params Hnd) as (h' & Hrun & Hnew & Hframe).
  { intros i p' a' Hi Ha'.
    destruct (Hsh (S i) p' a' Hi Ha') as (old' & Hold' & Hlen').
    exists old'. split; [|done].
    subst h1. rewrite lookup_insert_ne; [done|].
    intros ->. apply Hp. by eapply list_elem_of_lookup_2. }
  exists h'. split; [|split].
  - simpl. rewrite Hcopy. exact Hrun.
  - intros [|i] p' a' Hi Ha'; simpl in Hi, Ha'.
    + injection Hi as <-. injection Ha' as <-.
      rewrite Hframe; [subst h1; apply lookup_insert_eq|].
      intros i _ Hi. apply Hp. by eapply list_elem_of_lookup_2.
    + by eapply Hnew.
  - intros p' Hp'. rewrite Hframe.
    + subst h1. apply lookup_insert_ne. intros ->.
      apply (Hp' 0); [simpl; lia | done].
    + intros i Hi. apply (Hp' (S i)). simpl. lia.
Qed.



End Synchronizing.

Lemma toy_network_distinct : NoDup (dqn (Toy.worker 1 2 [])).
Proof.
  change (NoDup [1%positive; 2%positive]).
  apply NoDup_cons. split; [|apply NoDup_singleton].
  intros H. apply list_elem_of_singleton in H. discriminate.
Defined.

Lemma toy_shapes_agree_full :
  shapes_agree (heap (Toy.worker 1 2 [])) (dqn (Toy.worker 1 2 []))
    [[5%Q; 6%Q]; [7%Q]].
Proof.
  intros i p x Hi Hx.
  destruct i as [|[|i]]; [| |discriminate Hi];
    injection Hi as <-; injection Hx as <-.
  - by exists [0%Q; 0%Q].
  - by exists [0%Q].
Defined.

Lemma toy_shapes_agree_short :
  shapes_agree (heap (Toy.worker 1 2 [])) (dqn (Toy.worker 1 2 []))
    [[5%Q; 6%Q]].
Proof.
  intros i p x Hi Hx.
  destruct i as [|[|i]]; [| discriminate Hx | discriminate Hi].
  injection Hi as <-. injection Hx as <-. by exists [0%Q; 0%Q].
Defined.




(** ** Seeding and reproducibility *)




(** * Further properties of the worker *)

(** ** The decay of epsilon in closed form *)

Lemma py_max_cases (a b : Q) :
  ((a < b)%Q /\ py_max a b = b) \/ ((b <= a)%Q /\ py_max a b = a).
Proof.
  unfold py_max. destruct (Qltb a b) eqn:E.
  - left. split; [by apply Qltb_lt | done].
  - right. split; [by apply Qltb_ge | done].
Qed.

(** One more decrement applied to a value already in closed form. *)
Lemma decay_closed_step (x y d m k : Q) :
  (0 <= d)%Q -> (0 <= k)%Q -> (m <= y)%Q ->
  (x == py_max (y - k * d) m)%Q ->
  (py_max (x - d) m == py_max (y - (k + 1) * d) m)%Q.
Proof.
  intros Hd Hk Hm Hx.
  assert (0 <= k * d)%Q by (apply Qmult_le_0_compat; done).
  destruct (py_max_cases (y - k * d) m) as [[? E1]|[? E1]];
    destruct (py_max_cases (x - d) m) as [[? E2]|[? E2]];
    destruct (py_max_cases (y - (k + 1) * d) m) as [[? E3]|[? E3]];
    rewrite E1 in Hx; rewrite E2, E3; lra.
Qed.

Lemma py_max_Qeq (a a' b : Q) : (a == a')%Q -> (py_max a b == py_max a' b)%Q.
Proof.
  intros H. destruct (py_max_cases a b) as [[? ->]|[? ->]];
    destruct (py_max_cases a' b) as [[? ->]|[? ->]]; lra.
Qed.

Lemma inject_Z_nat_succ (k : nat) :
  (inject_Z (Z.of_nat (S k)) == inject_Z (Z.of_nat k) + 1)%Q.
Proof. by rewrite Nat2Z.inj_succ, <- Z.add_1_r, inject_Z_plus. Qed.

Lemma inject_Z_nat_nonneg (k : nat) : (0 <= inject_Z (Z.of_nat k))%Q.
Proof. change 0%Q with (inject_Z 0). rewrite <- Zle_Qle. lia. Qed.

Section ClosedForm.
Context {C : Collab}.
Implicit Types (w : Worker C) (c : Config C).

Lemma decrement_select_action w (s : list Q) :
  decrement (select_action w s).2 = decrement w.
Proof.
  unfold decrement.
  destruct (select_action_config w s) as (-> & -> & -> & _). done.
Qed.

Lemma decay_epsilon_closed w (y k : Q) :
  (0 <= decrement w)%Q -> (0 <= k)%Q -> (min_epsilon w <= y)%Q ->
  (epsilon w == py_max (y - k * decrement w) (min_epsilon w))%Q ->
  (decay_epsilon w == py_max (y - (k + 1) * decrement w) (min_epsilon w))%Q.
Proof.
  intros. unfold decay_epsilon. fold (decrement w). by apply decay_closed_step.
Qed.

Lemma epsilon_trace_closed (states : list (list Q)) :
  forall w (k : nat) (e y K : Q),
    (0 <= decrement w)%Q -> (0 <= K)%Q -> (min_epsilon w <= y)%Q ->
    (epsilon w == py_max (y - K * decrement w) (min_epsilon w))%Q ->
    (epsilon w :: epsilon_trace w states) !! k = Some e ->
    (e == py_max (y - (K + inject_Z (Z.of_nat k)) * decrement w) (min_epsilon w))%Q.
Proof.
  induction states as [|s rest IH]; intros w k e y K Hd HK Hy He Hk.
  - destruct k as [|k]; [|by destruct k]. injection Hk as <-.
    rewrite He. apply py_max_Qeq. change (inject_Z (Z.of_nat 0)) with 0%Q. ring.
  - destruct k as [|k].
    + injection Hk as <-.
      rewrite He. apply py_max_Qeq. change (inject_Z (Z.of_nat 0)) with 0%Q. ring.
    + change ((epsilon (select_action w s).2
               :: epsilon_trace (select_action w s).2 rest) !! k = Some e) in Hk.
      destruct (select_action_config w s) as (_ & Hmn & _).
      pose proof (select_action_epsilon w s) as Heps.
      pose proof (decrement_select_action w s) as Hdec.
      specialize (IH (select_action w s).2 k e y (K + 1)%Q).
      rewrite Hdec, Hmn, Heps in IH.
      assert (HK1 : (0 <= K + 1)%Q) by lra.
      rewrite Heps in Hk.
      rewrite (IH Hd HK1 Hy (decay_epsilon_closed w y K Hd HK Hy He) Hk).
      apply py_max_Qeq. rewrite inject_Z_nat_succ. ring.
Qed.


End ClosedForm.


(** ** What a collection run does to the worker and the buffer *)

Section Collected.
Context {C : Collab}.
Implicit Types (w : Worker C) (c : Config C) (m : LocalMemory).

Lemma after_S_r k c : after (S k) c = after k (machine_step c).
Proof. apply Nat.iter_succ_r. Qed.

Lemma after_add j k c : after (j + k) c = after j (after k c).
Proof. apply Nat.iter_add. Qed.

(** A returned result is the buffer and the worker of a configuration the
    machine reaches. *)
Lemma run_after (fuel : nat) c m w' :
  run fuel c = Some (m, w') ->
  exists k,
    c_phase (after k c) = Returned
    /\ m = c_memory (after k c) /\ w' = c_worker (after k c).
Proof.
  revert c. induction fuel as [|fuel IH]; intros c Hr; simpl in Hr.
  - destruct (c_phase c) eqn:E; try discriminate.
    injection Hr as <- <-. by exists 0.
  - destruct (c_phase c) eqn:E.
    3:{ injection Hr as <- <-. by exists 0. }
    all: destruct (IH _ Hr) as (k & H1 & H2 & H3);
      exists (S k); by rewrite after_S_r.
Qed.

Lemma machine_step_untouched c :
  rank (c_worker (machine_step c)) = rank (c_worker c)
  /\ py_rng (c_worker (machine_step c)) = py_rng (c_worker c).
Proof.
  unfold machine_step. destruct (c_phase c) as [|state score num_steps|]; [| |done].
  - unfold loop_head. destruct (Z.ltb _ _); [|done].
    by destruct (env_reset C (env (c_worker c))).
  - unfold loop_body, select_action, step.
    set (w0 := if worker_render (c_worker c) then _ else c_worker c).
    assert (Hw0 : rank w0 = rank (c_worker c) /\ py_rng w0 = py_rng (c_worker c))
      by (subst w0; by destruct (worker_render (c_worker c))).
    destruct Hw0 as [<- <-].
    destruct (np_random C (np_rng w0)) as [draw g].
    destruct (explores w0 draw).
    + destruct (space_sample C _) as [a e]. simpl.
      destruct (env_step C e a) as [[[? ?] ?] ?]. simpl.
      by destruct (record_transition _ _ _ _).
    + simpl. destruct (env_step C _ _) as [[[? ?] ?] ?]. simpl.
      by destruct (record_transition _ _ _ _).
Qed.

Lemma after_untouched k c :
  rank (c_worker (after k c)) = rank (c_worker c)
  /\ py_rng (c_worker (after k c)) = py_rng (c_worker c).
Proof.
  induction k as [|k [IH1 IH2]]; [done|]. rewrite after_S.
  destruct (machine_step_untouched (after k c)) as [-> ->]. done.
Qed.

Lemma machine_step_epsilon c :
  epsilon (c_worker (machine_step c)) =
  match c_phase c with
  | InEpisode _ _ _ => decay_epsilon (c_worker c)
  | _ => epsilon (c_worker c)
  end.
Proof.
  unfold machine_step. destruct (c_phase c) as [|state score num_steps|]; [| |done].
  - unfold loop_head. destruct (Z.ltb _ _); [|done].
    by destruct (env_reset C (env (c_worker c))).
  - destruct (loop_body_spec (c_worker c) (c_memory c) (c_queue c) state score num_steps)
      as (w2 & e1 & action & H).
    destruct (env_step C e1 action).1 as [[next_state reward] done].
    destruct H as (-> & H). simpl. tauto.
Qed.


(** X3: a threshold of zero or less makes [collect_data] return the empty
    buffer at once: no reset, no action, no change to the worker. *)
Theorem collect_data_nothing_to_collect w (fuel : nat) :
  (local_buffer_max_size (hyper_params w) <= 0)%Z ->
  collect_data (S fuel) w = Some (empty_memory, w).
Proof.
  intros H. unfold collect_data. simpl.
  assert (E : machine_step (init_config w) = mkConfig w empty_memory [] Returned).
  { unfold machine_step, init_config, loop_head. cbn [c_phase c_worker c_memory c_queue].
    change (field_len empty_memory "states") with 0.
    by destruct (Z.ltb_spec (Z.of_nat 0) (local_buffer_max_size (hyper_params w)));
      [lia|]. }
  rewrite E. by destruct fuel.
Qed.

(** X4: [collect_data] never writes the network or its parameters, the
    configuration, the rank, or Python's generator (it draws from numpy's
    only). *)
Theorem collect_data_frame w (fuel : nat) m w' :
  collect_data fuel w = Some (m, w') ->
  heap w' = heap w /\ dqn w' = dqn w
  /\ hyper_params w' = hyper_params w /\ use_n_step w' = use_n_step w
  /\ max_epsilon w' = max_epsilon w /\ min_epsilon w' = min_epsilon w
  /\ rank w' = rank w /\ py_rng w' = py_rng w.
Proof.
  intros Hr. apply run_after in Hr as (k & _ & _ & ->).
  destruct (after_untouched k (init_config w)).
  destruct (after_config k (init_config w)) as (H1 & H2 & _ & H4 & H5 & H6 & H7).
  by repeat split.
Qed.

Lemma extended_by_get m (t : Transition) m' (key : string) (l : list Value) :
  extended_by m t m' -> dict_get m key = Some l ->
  exists v, dict_get m' key = Some (l ++ [v]).
Proof.
  intros (l1 & l2 & l3 & l4 & l5 & -> & ->) H.
  unfold memory_of in *. simpl in *.
  repeat (destruct (String.eqb key _); [injection H as <-; eauto|]).
  discriminate.
Qed.

Lemma machine_step_memory c n :
  buffer_of_len (c_memory c) n ->
  c_memory (machine_step c) = c_memory c
  \/ exists t, extended_by (c_memory c) t (c_memory (machine_step c)).
Proof.
  intros Hm. unfold machine_step.
  destruct (c_phase c) as [|state score num_steps|]; [| |by left].
  - destruct (loop_head_spec (c_worker c) (c_memory c) (c_queue c)) as (-> & _).
    by left.
  - destruct (loop_body_spec (c_worker c) (c_memory c) (c_queue c) state score num_steps)
      as (w2 & e1 & action & H).
    destruct (env_step C e1 action).1 as [[next_state reward] done].
    destruct H as (-> & _). simpl.
    pose proof (record_transition_grows w2 (c_memory c) (c_queue c)
      (mkTransition state action reward next_state (Z.b2z done)) n Hm) as G.
    destruct (accepts _ _ _); [right | by left].
    destruct G as [G _]. eauto.
Qed.

(** X5: the buffer is append-only during a collection: whatever a field
    holds at one point is a prefix of what it holds at any later point, so an
    entry once written is never changed, moved or removed. *)
Theorem buffer_append_only w (j k : nat) (key : string) (l : list Value) :
  dict_get (c_memory (after j (init_config w))) key = Some l ->
  exists l',
    dict_get (c_memory (after (k + j) (init_config w))) key = Some (l ++ l').
Proof.
  intros H. induction k as [|k (l' & IH)].
  - exists []. by rewrite app_nil_r.
  - change (S k + j) with (S (k + j)). rewrite after_S.
    destruct (after_buffer (k + j) (init_config w) 0 buffer_of_len_empty)
      as (n & Hn & _).
    destruct (machine_step_memory (after (k + j) (init_config w)) n Hn)
      as [-> | (t & Ht)]; [eauto|].
    destruct (extended_by_get _ _ _ _ _ Ht IH) as (v & Hv).
    exists (l' ++ [v]). by rewrite app_assoc.
Qed.

(** X6: every buffer [collect_data] returns can be handed to
    [compute_priorities]: the five keys are there, with sequences of one
    length, and the priorities are the element-wise loss plus [per_eps]. *)
Theorem collected_buffer_has_priorities w (fuel : nat) m w' :
  collect_data fuel w = Some (m, w') ->
  exists n loss,
    buffer_of_len m n
    /\ element_wise_loss w' m = Some loss
    /\ compute_priorities w' m
       = Some ((fun l => l + per_eps (hyper_params w))%Q <$> loss).
Proof.
  intros Hr. apply run_after in Hr as (k & _ & -> & ->).
  destruct (after_config k (init_config w)) as (Hhp & _).
  change (hyper_params (c_worker (init_config w))) with (hyper_params w) in Hhp.
  destruct (after_buffer k (init_config w) 0 buffer_of_len_empty) as (n & Hn & _).
  destruct (element_wise_loss_total (c_worker (after k (init_config w))) _ n Hn)
    as [loss Hl].
  exists n, loss. split; [done|]. split; [done|].
  unfold compute_priorities. by rewrite Hl, Hhp.
Qed.

(** X7: [compute_priorities] looks its five fields up by name; when one of
    them is missing from the dict the call fails, whatever else the dict
    holds. *)
Theorem compute_priorities_missing_key w m (key : string) :
  key ∈ memory_keys empty_memory ->
  dict_get m key = None ->
  compute_priorities w m = None.
Proof.
  intros Hk Hget. unfold compute_priorities, element_wise_loss.
  apply list_elem_of_In in Hk. simpl in Hk.
  destruct Hk as [<-|[<-|[<-|[<-|[<-|[]]]]]]; rewrite ?Hget; simpl;
    repeat (match goal with
            | |- context [dict_get m ?k] =>
                destruct (dict_get m k) eqn:?; simpl; try congruence
            end); done.
Qed.

End Collected.

(** ** How far a collection can overshoot *)

Section Overshoot.
Context {C : Collab} (left : EnvState C -> nat) (K : nat).
Hypothesis Hepisodic : episodic C left K.
Implicit Types (w : Worker C) (c : Config C).

Lemma machine_step_overshoot c n :
  buffer_of_len (c_memory c) n -> within_overshoot left K c n ->
  exists n',
    buffer_of_len (c_memory (machine_step c)) n'
    /\ within_overshoot left K (machine_step c) n'.
Proof.
  destruct Hepisodic as (Hreset & Hstep & Hsample & Hrender).
  intros Hm Hb. pose proof (buffer_of_len_field _ _ Hm) as Hfl.
  unfold within_overshoot in Hb. unfold machine_step.
  destruct (c_phase c) as [|state score num_steps|] eqn:Ephase.
  - destruct (loop_head_spec (c_worker c) (c_memory c) (c_queue c)) as (Hm' & _ & H).
    exists n. rewrite Hm'. split; [done|].
    destruct (Z.ltb_spec (Z.of_nat (field_len (c_memory c) "states"))
                (local_buffer_max_size (hyper_params (c_worker c)))) as [Hlt|Hge].
    + destruct H as (state & _ & Hph & Hw).
      unfold within_overshoot. rewrite Hph, Hw. simpl.
      specialize (Hreset (env (c_worker c))). lia.
    + rewrite H. unfold within_overshoot. simpl. lia.
  - destruct (loop_body_spec (c_worker c) (c_memory c) (c_queue c) state score num_steps)
      as (w2 & e1 & action & H).
    specialize (Hstep e1 action).
    destruct (env_step C e1 action) as [[[next_state reward] done] e'].
    simpl in H, Hstep.
    destruct H as (-> & He1 & Henv & Hhp & _).
    assert (Hleft : left e1 <= left (env (c_worker c))).
    { unfold shown_env in He1. destruct He1 as [-> | ->].
      - destruct (worker_render (c_worker c)); [apply Hrender | done].
      - etrans; [apply Hsample|].
        destruct (worker_render (c_worker c)); [apply Hrender | done]. }
    eexists. split; [simpl; by apply record_transition_len|].
    unfold within_overshoot. simpl. rewrite Hhp, Henv.
    destruct done.
    + destruct (accepts _ _ _); lia.
    + specialize (Hstep eq_refl). destruct (accepts _ _ _); lia.
  - exists n. split; [done|].
    unfold within_overshoot. by rewrite Ephase.
Qed.

Lemma after_reachable_shape k c : reachable_shape c -> reachable_shape (after k c).
Proof.
  intros H. induction k as [|k IH]; [done|]. rewrite after_S.
  destruct (c_phase (after k c)) eqn:E.
  3:{ unfold machine_step. by rewrite E. }
  all: apply (machine_step_progress left K Hepisodic); [done | congruence].
Qed.

(** X8: on an environment whose episodes take at most [K + 1] steps, the
    buffer [collect_data] returns has at least [local_buffer_max_size]
    entries per field and at most [K] more than that threshold (than zero,
    when the threshold is negative): the last episode runs to its end, and
    only that one. *)
Theorem collect_data_overshoot_bound w (fuel : nat) (m : LocalMemory) w' :
  consistent w ->
  collect_data fuel w = Some (m, w') ->
  exists n,
    buffer_of_len m n
    /\ (local_buffer_max_size (hyper_params w) <= Z.of_nat n)%Z
    /\ n <= Z.to_nat (local_buffer_max_size (hyper_params w)) + K.
Proof.
  intros Hc Hr. apply run_after in Hr as (k & Hph & -> & _).
  assert (Hb : exists n,
    buffer_of_len (c_memory (after k (init_config w))) n
    /\ within_overshoot left K (after k (init_config w)) n).
  { clear Hph. induction k as [|k (n & Hn & Hb)].
    - exists 0. split; [apply buffer_of_len_empty|].
      unfold within_overshoot. simpl. lia.
    - rewrite after_S. by eapply machine_step_overshoot. }
  destruct Hb as (n & Hn & Hb).
  destruct (after_reachable_shape k _ (init_config_shape w Hc))
    as (_ & _ & n' & Hn' & Hret).
  pose proof (buffer_of_len_field _ _ Hn) as E1.
  pose proof (buffer_of_len_field _ _ Hn') as E2.
  assert (n' = n) as -> by congruence.
  destruct (after_config k (init_config w)) as (Hhp & _).
  unfold within_overshoot in Hb. rewrite Hph, Hhp in Hb.
  change (hyper_params (c_worker (init_config w))) with (hyper_params w) in *.
  exists n. split; [done|]. split; [|exact Hb].
  rewrite <- Hhp. by apply Hret.
Qed.

End Overshoot.

(** ** Raw transitions follow one another *)

Section RawTransitions.
Context {C : Collab}.
Implicit Types (w : Worker C) (c : Config C).

Lemma machine_step_raw c :
  use_n_step (c_worker c) = false ->
  raw_shape (c_memory c) (c_phase c) ->
  raw_shape (c_memory (machine_step c)) (c_phase (machine_step c)).
Proof.
  intros Hu Hraw. unfold machine_step.
  destruct (c_phase c) as [|state score num_steps|] eqn:Ephase.
  - destruct (loop_head_spec (c_worker c) (c_memory c) (c_queue c)) as (Hm & _ & H).
    rewrite Hm.
    destruct Hraw as (l1 & l2 & l3 & l4 & l5 & n & E & H1 & H4 & H5 & Hb & Hc & Hl).
    exists l1, l2, l3, l4, l5, n. repeat (split; [done|]).
    intros i Hi Hd. destruct (Hl i Hi Hd).
  - destruct (loop_body_spec (c_worker c) (c_memory c) (c_queue c) state score num_steps)
      as (w2 & e1 & action & H).
    destruct (env_step C e1 action).1 as [[next_state reward] done].
    destruct H as (-> & _ & _ & _ & Huse & _). simpl.
    rewrite record_transition_memory. unfold accepts, appended.
    rewrite Huse, Hu.
    destruct Hraw as (l1 & l2 & l3 & l4 & l5 & n & -> & H1 & H4 & H5 & Hb & Hc & Hl).
    exists (l1 ++ [VArr state]), (l2 ++ [VInt action]), (l3 ++ [VFloat reward]),
      (l4 ++ [VArr next_state]), (l5 ++ [VInt (Z.b2z done)]), (S n).
    split; [done|].
    split; [rewrite length_app; simpl; lia|].
    split; [rewrite length_app; simpl; lia|].
    split; [rewrite length_app; simpl; lia|].
    split; [|split].
    + intros i v Hv. apply lookup_snoc_Some in Hv as [[_ Hv]|[_ <-]].
      * by eapply Hb.
      * destruct done; auto.
    + intros i s Hd Hs.
      apply lookup_snoc_Some in Hd as [[Hi Hd]|[Hi Hd]].
      * apply lookup_app_l_Some.
        apply lookup_snoc_Some in Hs as [[_ Hs]|[Hi' <-]].
        -- by eapply Hc.
        -- apply (Hl i); [lia | done].
      * apply lookup_lt_Some in Hs. rewrite length_app in Hs. simpl in Hs. lia.
    + intros i Hi Hd. assert (i = n) as -> by lia.
      apply lookup_snoc_Some in Hd as [[Hi' _]|[_ Hd]]; [lia|].
      destruct done; [discriminate Hd|].
      apply lookup_snoc_Some. right. split; [lia | done].
  - by rewrite Ephase.
Qed.

Lemma field_memory_of (l1 l2 l3 l4 l5 : list Value) (i : nat) :
  field (memory_of l1 l2 l3 l4 l5) "states" i = l1 !! i
  /\ field (memory_of l1 l2 l3 l4 l5) "next_states" i = l4 !! i
  /\ field (memory_of l1 l2 l3 l4 l5) "dones" i = l5 !! i.
Proof. done. Qed.

(** X9: with [n_step] at most 1 the buffer holds the transitions in the
    order they were taken: every [dones] entry is 0 or 1, and when entry [i]
    did not end its episode, entry [i + 1] starts in the state entry [i] led
    to. *)
Theorem raw_transitions_chain w (k i : nat) :
  use_n_step w = false ->
  let m := c_memory (after k (init_config w)) in
  (forall v, field m "dones" i = Some v -> v = VInt 0 \/ v = VInt 1)
  /\ (forall s, field m "dones" i = Some (VInt 0) ->
        field m "states" (S i) = Some s ->
        field m "next_states" i = Some s).
Proof.
  intros Hu m. subst m.
  assert (Hraw : raw_shape (c_memory (after k (init_config w)))
                   (c_phase (after k (init_config w)))).
  { induction k as [|k IH].
    - exists [], [], [], [], [], 0. repeat (split; [done|]). intros j; lia.
    - rewrite after_S. apply machine_step_raw; [|done].
      destruct (after_config k (init_config w)) as (_ & -> & _). exact Hu. }
  destruct Hraw as (l1 & l2 & l3 & l4 & l5 & n & -> & _ & _ & _ & Hb & Hc & _).
  destruct (field_memory_of l1 l2 l3 l4 l5 i) as (_ & -> & ->).
  destruct (field_memory_of l1 l2 l3 l4 l5 (S i)) as (-> & _).
  split; [apply Hb | apply Hc].
Qed.

End RawTransitions.

(** ** The two branches of the exploration policy *)

Section Branches.
Context {C : Collab}.
Implicit Types (w : Worker C) (s : list Q).

Lemma select_action_exploits w s :
  explores w (np_random C (np_rng w)).1 = false ->
  (select_action w s).1
    = dqn_argmax C (read_params (heap w) (dqn w)) (FloatTensor C s)
  /\ env (select_action w s).2 = env w.
Proof.
  unfold select_action. destruct (np_random C (np_rng w)) as [draw g]. simpl.
  by intros ->.
Qed.

Lemma select_action_explores w s :
  explores w (np_random C (np_rng w)).1 = true ->
  (select_action w s).1 = (space_sample C (env w)).1
  /\ env (select_action w s).2 = (space_sample C (env w)).2.
Proof.
  unfold select_action. destruct (np_random C (np_rng w)) as [draw g]. simpl.
  intros ->. simpl. by destruct (space_sample C (env w)).
Qed.

Lemma select_action_draws_once w s :
  np_rng (select_action w s).2 = (np_random C (np_rng w)).2.
Proof.
  unfold select_action. destruct (np_random C (np_rng w)) as [draw g]. simpl.
  destruct (explores w draw); [|done]. by destruct (space_sample C _).
Qed.

(** X10: [select_action] consumes exactly one numpy draw.  A draw strictly
    below [epsilon] returns the action space's sample and advances the
    sampler; any other draw, one equal to [epsilon] included, returns the
    network's arg-max for the current parameters and leaves the environment
    as it is.  The network is never written. *)
Theorem select_action_branches w s :
  np_rng (select_action w s).2 = (np_random C (np_rng w)).2
  /\ heap (select_action w s).2 = heap w
  /\ dqn (select_action w s).2 = dqn w
  /\ (((np_random C (np_rng w)).1 < epsilon w)%Q ->
      (select_action w s).1 = (space_sample C (env w)).1
      /\ env (select_action w s).2 = (space_sample C (env w)).2)
  /\ ((epsilon w <= (np_random C (np_rng w)).1)%Q ->
      (select_action w s).1
        = dqn_argmax C (read_params (heap w) (dqn w)) (FloatTensor C s)
      /\ env (select_action w s).2 = env w).
Proof.
  destruct (select_action_config w s) as (_ & _ & _ & _ & _ & Hd & Hh).
  split; [apply select_action_draws_once|]. split; [done|]. split; [done|].
  split; intros H.
  - apply select_action_explores. by apply Qltb_lt.
  - apply select_action_exploits. by apply Qltb_ge.
Qed.

End Branches.

(** ** Successive synchronizations *)

Section Resynchronizing.
Context {C : Collab}.
Implicit Types (w : Worker C) (h : gmap positive (list Q)) (net : list positive).

Lemma read_params_synchronized h net (new_params : list (list Q)) h' :
  NoDup net -> shapes_agree h net new_params ->
  length new_params = length net ->
  _synchronize C h net new_params = Some h' ->
  read_params h' net = FloatTensor C <$> new_params.
Proof.
  intros Hnd Hsh Hlen Hrun.
  destruct (_synchronize_spec (C:=C) h net new_params Hnd Hsh) as (h'' & Hrun' & Hnew & _).
  assert (h'' = h') as -> by congruence.
  apply list_eq. intros i. unfold read_params. rewrite !list_lookup_fmap.
  destruct (net !! i) as [p|] eqn:Hi.
  - destruct (lookup_lt_is_Some_2 new_params i) as [a Ha].
    { rewrite Hlen. by eapply lookup_lt_Some. }
    rewrite Ha. simpl. unfold read_tensor. by rewrite (Hnew i p a Hi Ha).
  - rewrite lookup_ge_None_2; [done|]. rewrite Hlen. by apply lookup_ge_None.
Qed.

(** A second parameter set that is at least as long replaces the first
    altogether. *)
Lemma _synchronize_twice h net (ps1 ps2 : list (list Q)) :
  NoDup net -> shapes_agree h net ps1 -> shapes_agree h net ps2 ->
  length ps1 <= length ps2 ->
  exists h1 h2,
    _synchronize C h net ps1 = Some h1
    /\ _synchronize C h net ps2 = Some h2
    /\ _synchronize C h1 net ps2 = Some h2.
Proof.
  intros Hnd Hs1 Hs2 Hlen.
  destruct (_synchronize_spec (C:=C) h net ps1 Hnd Hs1) as (h1 & Hr1 & Hn1 & Hf1).
  destruct (_synchronize_spec (C:=C) h net ps2 Hnd Hs2) as (h2 & Hr2 & Hn2 & Hf2).
  assert (Hs12 : shapes_agree h1 net ps2).
  { intros i p a Hi Ha. destruct (Hs2 i p a Hi Ha) as (old & Hold & Hl).
    destruct (ps1 !! i) as [b|] eqn:Hb.
    - destruct (Hs1 i p b Hi Hb) as (old' & Hold' & Hl').
      exists (FloatTensor C b). split; [by eapply Hn1|].
      unfold FloatTensor. rewrite length_fmap. congruence.
    - exists old. split; [|done]. rewrite Hf1; [done|].
      intros j Hj Hjp. pose proof (NoDup_lookup _ _ _ _ Hnd Hi Hjp) as ->.
      apply lookup_ge_None in Hb. lia. }
  destruct (_synchronize_spec (C:=C) h1 net ps2 Hnd Hs12) as (h12 & Hr12 & Hn12 & Hf12).
  exists h1, h2. split; [done|]. split; [done|].
  rewrite Hr12. f_equal. apply map_eq. intros p.
  destruct (decide (p ∈ take (length ps2) net)) as [Hin|Hno].
  - apply elem_of_take in Hin as (i & Hi & Hlt).
    destruct (lookup_lt_is_Some_2 ps2 i Hlt) as [a Ha].
    by rewrite (Hn12 i p a Hi Ha), (Hn2 i p a Hi Ha).
  - assert (Hout : forall n, n <= length ps2 ->
              forall i, i < n -> net !! i <> Some p).
    { intros n Hn i Hi Hp. apply Hno. apply elem_of_take. exists i.
      split; [done | lia]. }
    rewrite Hf12, Hf2, Hf1; eauto.
Qed.




End Resynchronizing.

(** ** Instances *)


Lemma collect_data_nothing_to_collect_witness :
  collect_data 1 (Toy.worker 1 0 [])
  = Some (empty_memory, Toy.worker 1 0 []).
Proof.
  apply (collect_data_nothing_to_collect (Toy.worker 1 0 []) 0).
  vm_compute. discriminate.
Defined.

Lemma collect_data_frame_witness :
  exists m w',
    collect_data 20 (Toy.worker 2 3 []) = Some (m, w')
    /\ heap w' = heap (Toy.worker 2 3 [])
    /\ py_rng w' = py_rng (Toy.worker 2 3 []).
Proof.
  destruct (collect_data 20 (Toy.worker 2 3 [])) as [[m w']|] eqn:E;
    [|vm_compute in E; discriminate].
  exists m, w'. split; [reflexivity|].
  destruct (collect_data_frame (Toy.worker 2 3 []) 20 m w' E)
    as (Hh & _ & _ & _ & _ & _ & _ & Hp).
  by split.
Defined.

Lemma buffer_append_only_witness :
  exists l',
    dict_get (c_memory (after (4 + 3) (init_config (Toy.worker 1 100 []))))
      "rewards"
    = Some ([VFloat 1; VFloat 1] ++ l').
Proof.
  apply (buffer_append_only (Toy.worker 1 100 []) 3 4 "rewards"
           [VFloat 1; VFloat 1]).
  reflexivity.
Defined.

Lemma collected_buffer_has_priorities_witness :
  exists m w' n loss,
    collect_data 20 (Toy.worker 1 2 []) = Some (m, w')
    /\ buffer_of_len m n
    /\ compute_priorities w' m
       = Some ((fun l => l + (1 # 1000000))%Q <$> loss).
Proof.
  destruct (collect_data 20 (Toy.worker 1 2 [])) as [[m w']|] eqn:E;
    [|vm_compute in E; discriminate].
  destruct (collected_buffer_has_priorities (Toy.worker 1 2 []) 20 m w' E)
    as (n & loss & Hn & _ & Hp).
  exists m, w', n, loss. by split.
Defined.

Lemma compute_priorities_missing_key_witness :
  compute_priorities (Toy.worker 1 2 [])
    [("states"%string, [VArr [0%Q]]); ("actions"%string, [VInt 1]);
     ("rewards"%string, [VFloat 1]); ("next_states"%string, [VArr [1%Q]])]
  = None.
Proof.
  apply (compute_priorities_missing_key (Toy.worker 1 2 []) _ "dones").
  - apply list_elem_of_In. simpl. tauto.
  - reflexivity.
Defined.

Lemma collect_data_overshoot_bound_witness :
  exists m w' n,
    collect_data 20 (Toy.worker 1 4 []) = Some (m, w')
    /\ buffer_of_len m n /\ (4 <= Z.of_nat n)%Z /\ n <= 7.
Proof.
  destruct (collect_data 20 (Toy.worker 1 4 [])) as [[m w']|] eqn:E;
    [|vm_compute in E; discriminate].
  destruct (collect_data_overshoot_bound (C:=Toy.collab) Toy.remaining 3
              toy_episodic (Toy.worker 1 4 []) 20 m w' eq_refl E)
    as (n & Hn & Hlo & Hhi).
  exists m, w', n. split; [reflexivity|].
  split; [exact Hn|]. split; [exact Hlo | exact Hhi].
Defined.

Lemma raw_transitions_chain_witness :
  field (c_memory (after 6 (init_config (Toy.worker 1 100 [])))) "dones" 1
    = Some (VInt 0)
  /\ field (c_memory (after 6 (init_config (Toy.worker 1 100 [])))) "next_states" 1
     = Some (VArr [2%Q]).
Proof.
  destruct (raw_transitions_chain (Toy.worker 1 100 []) 6 1 eq_refl) as [_ H].
  split; [reflexivity|]. apply H; reflexivity.
Defined.



